(** * weather-app: the forecast aggregator and the search controller of src/App.js

    A shallow embedding of [buildDaily] and of the [App] component's state
    handling ([fetchWeather], [onSubmit], the unit toggle and the effect that
    refetches on a unit change), with the properties stated about them. *)

From Stdlib Require Import ZArith QArith Qround Qabs Lqa Lia Bool List String Ascii.
From Stdlib Require Import Sorted Permutation.
Import ListNotations.

Local Open Scope Z_scope.

(** ** Completions: a value, or a thrown TypeError *)

Inductive completion (A : Type) : Type :=
| Normal (a : A)
| Throw.
Arguments Normal {A} a.
Arguments Throw {A}.

Definition bind {A B : Type} (c : completion A) (k : A -> completion B) : completion B :=
  match c with
  | Normal a => k a
  | Throw => Throw
  end.

Notation "x <- c ;; k" := (bind c (fun x => k))
  (at level 61, c at next level, right associativity).

(** [list.forEach] with a body that may throw: the first throw ends the loop. *)
Fixpoint forEachM {A S : Type} (body : S -> A -> completion S) (l : list A) (s : S)
  : completion S :=
  match l with
  | [] => Normal s
  | x :: l' => s' <- body s x ;; forEachM body l' s'
  end.

(** [array.map] with a callback that may throw. *)
Fixpoint mapM {A B : Type} (f : A -> completion B) (l : list A) : completion (list B) :=
  match l with
  | [] => Normal []
  | x :: l' => y <- f x ;; ys <- mapM f l' ;; Normal (y :: ys)
  end.

(** ** JavaScript numbers

    A finite Number is a rational; the operations used by the program
    (difference of integral time values and hours, [Math.abs], [<],
    [Math.min], [Math.max], [Math.round]) are exact on the values it meets. *)

Inductive number : Type :=
| Fin (q : Q)
| PosInf
| NegInf
| NaN.

Definition Qlt_bool (a b : Q) : bool := negb (Qle_bool b a).

Definition of_Z (z : Z) : number := Fin (inject_Z z).

(** [a - b] *)
Definition num_sub (a b : number) : number :=
  match a, b with
  | NaN, _ | _, NaN => NaN
  | Fin x, Fin y => Fin (x - y)
  | Fin _, PosInf => NegInf
  | Fin _, NegInf => PosInf
  | PosInf, PosInf => NaN
  | PosInf, _ => PosInf
  | NegInf, NegInf => NaN
  | NegInf, _ => NegInf
  end.

(** [a < b]; false as soon as one side is NaN *)
Definition num_lt (a b : number) : bool :=
  match a, b with
  | NaN, _ | _, NaN => false
  | Fin x, Fin y => Qlt_bool x y
  | NegInf, NegInf => false
  | NegInf, _ => true
  | _, NegInf => false
  | PosInf, _ => false
  | Fin _, PosInf => true
  end.

Definition Math_abs (a : number) : number :=
  match a with
  | Fin x => Fin (Qabs x)
  | PosInf | NegInf => PosInf
  | NaN => NaN
  end.

Definition min2 (a b : number) : number :=
  match a, b with
  | NaN, _ | _, NaN => NaN
  | _, _ => if num_lt b a then b else a
  end.

Definition max2 (a b : number) : number :=
  match a, b with
  | NaN, _ | _, NaN => NaN
  | _, _ => if num_lt a b then b else a
  end.

(** [Math.min(...args)]: starts from +Infinity. *)
Definition Math_min (args : list number) : number := fold_left min2 args PosInf.

(** [Math.max(...args)]: starts from -Infinity. *)
Definition Math_max (args : list number) : number := fold_left max2 args NegInf.

(** [Math.round]: the closest integer, a tie going towards +Infinity. *)
Definition Math_round (a : number) : number :=
  match a with
  | Fin x => of_Z (Qfloor (x + (1 # 2)))
  | _ => a
  end.

(** ** Strings

    A string is a sequence of code units; [ascii] covers the units below 256. *)

(** [s.split(sep)] for a one-unit separator: the first piece and the others.
    The result of [split] is never empty, so [split(sep)[0]] is [fst]. *)
Fixpoint split (sep : ascii) (s : string) : string * list string :=
  match s with
  | EmptyString => (EmptyString, [])
  | String c r =>
      let (p, ps) := split sep r in
      if Ascii.eqb c sep then (EmptyString, p :: ps) else (String c p, ps)
  end.

(** White space of [String.prototype.trim] among the units below 256:
    TAB, LF, VT, FF, CR, SP and NBSP. *)
Definition is_white (c : ascii) : bool :=
  let n := N_of_ascii c in
  ((9 <=? n) && (n <=? 13) || (n =? 32) || (n =? 160))%N.

Fixpoint trimStart (s : string) : string :=
  match s with
  | EmptyString => EmptyString
  | String c r => if is_white c then trimStart r else s
  end.

Fixpoint trimEnd (s : string) : string :=
  match s with
  | EmptyString => EmptyString
  | String c r =>
      match trimEnd r with
      | EmptyString => if is_white c then EmptyString else String c EmptyString
      | r' => String c r'
      end
  end.

Definition trim (s : string) : string := trimEnd (trimStart s).

(** Truthiness of a string: only the empty string is falsy. *)
Definition truthy (s : string) : bool := negb (String.eqb s EmptyString).

(** ** Dates

    The language fixes what [new Date(s)] is for the date-only form
    [YYYY-MM-DD]: UTC midnight of that date.  The readers below recognise
    that form and the timestamp form [YYYY-MM-DD HH:MM:SS] of the forecast
    feed.  What a [Date] is for any other text, and which local hour it
    reports, is left to the browser: see [Host]. *)

Definition digit (c : ascii) : option Z :=
  let n := Z.of_N (N_of_ascii c) in
  if (48 <=? n) && (n <=? 57) then Some (n - 48) else None.

Definition digits2 (a b : ascii) : option Z :=
  match digit a, digit b with
  | Some x, Some y => Some (10 * x + y)
  | _, _ => None
  end.

Definition digits4 (a b c d : ascii) : option Z :=
  match digits2 a b, digits2 c d with
  | Some x, Some y => Some (100 * x + y)
  | _, _ => None
  end.

Definition is_leap (y : Z) : bool :=
  (y mod 4 =? 0) && (negb (y mod 100 =? 0) || (y mod 400 =? 0)).

Definition days_in_month (y m : Z) : Z :=
  match m with
  | 1 | 3 | 5 | 7 | 8 | 10 | 12 => 31
  | 4 | 6 | 9 | 11 => 30
  | 2 => if is_leap y then 29 else 28
  | _ => 0
  end.

(** Days from the first of January to the first of month [m]. *)
Definition days_before_month (y m : Z) : Z :=
  let leap := if is_leap y then 1 else 0 in
  match m with
  | 1 => 0
  | 2 => 31
  | 3 => 59 + leap
  | 4 => 90 + leap
  | 5 => 120 + leap
  | 6 => 151 + leap
  | 7 => 181 + leap
  | 8 => 212 + leap
  | 9 => 243 + leap
  | 10 => 273 + leap
  | 11 => 304 + leap
  | _ => 334 + leap
  end.

(** ECMAScript's DayFromYear: the day number of the first of January of [y],
    counted from 1970-01-01. *)
Definition DayFromYear (y : Z) : Z :=
  365 * (y - 1970) + (y - 1969) / 4 - (y - 1901) / 100 + (y - 1601) / 400.

Definition msPerDay : Z := 86400000.

Definition valid_date (y m d : Z) : bool :=
  (1 <=? m) && (m <=? 12) && (1 <=? d) && (d <=? days_in_month y m).

(** The time value of UTC midnight of a calendar date. *)
Definition date_value (y m d : Z) : Z :=
  (DayFromYear y + days_before_month y m + (d - 1)) * msPerDay.

Definition parse_date_units (l : list ascii) : option (Z * Z * Z) :=
  match l with
  | [y1; y2; y3; y4; h1; m1; m2; h2; d1; d2] =>
      if Ascii.eqb h1 "-"%char && Ascii.eqb h2 "-"%char then
        match digits4 y1 y2 y3 y4, digits2 m1 m2, digits2 d1 d2 with
        | Some y, Some m, Some d => if valid_date y m d then Some (y, m, d) else None
        | _, _, _ => None
        end
      else None
  | _ => None
  end.

Definition parse_clock_units (l : list ascii) : option (Z * Z * Z) :=
  match l with
  | [a1; a2; c1; b1; b2; c2; s1; s2] =>
      if Ascii.eqb c1 ":"%char && Ascii.eqb c2 ":"%char then
        match digits2 a1 a2, digits2 b1 b2, digits2 s1 s2 with
        | Some h, Some mi, Some s =>
            if (h <=? 23) && (mi <=? 59) && (s <=? 59) then Some (h, mi, s) else None
        | _, _, _ => None
        end
      else None
  | _ => None
  end.

(** [YYYY-MM-DD] *)
Definition parse_date (s : string) : option (Z * Z * Z) :=
  parse_date_units (list_ascii_of_string s).

(** [YYYY-MM-DD HH:MM:SS]: the calendar date and the clock time. *)
Definition parse_timestamp (s : string) : option ((Z * Z * Z) * (Z * Z * Z)) :=
  let l := list_ascii_of_string s in
  match parse_date_units (firstn 10 l), skipn 10 l with
  | Some dt, sp :: clock =>
      if Ascii.eqb sp " "%char then
        match parse_clock_units clock with
        | Some t => Some (dt, t)
        | None => None
        end
      else None
  | _, _ => None
  end.

(** ** The forecast feed and the daily summaries *)

(** An element of [item.weather]: [{ icon, main }]. *)
Module Weather.
Record t : Type := make { icon : string; main : string }.
End Weather.

(** [item.main]: [{ temp_min, temp_max }]; JSON numbers are finite. *)
Module Main.
Record t : Type := make { temp_min : Q; temp_max : Q }.
End Main.

(** A forecast sample: [{ dt_txt, main, weather }]. *)
Module Item.
Record t : Type := make { dt_txt : string; main : Main.t; weather : list Weather.t }.
End Item.

(** An entry of the result of [buildDaily]: [{ date, min, max, icon, desc }]. *)
Module Day.
Record t : Type :=
  make { date : string; min : number; max : number; icon : string; desc : string }.
End Day.

(** [w.data], the body of the current-conditions response, with the fields
    the component reads. *)
Module Current.
Record t : Type :=
  make { name : string; country : string; temp : Q; humidity : Q;
         wind_speed : Q; weather : list Weather.t }.
End Current.

(** ** [Map]: keys in insertion order

    [map.get(date).push(item)] changes the array the map holds; the store
    keeps one array per key, and the push is the replacement of that array
    at the key's place. *)

Definition JsMap (V : Type) : Type := list (string * V).

Fixpoint Map_get {V : Type} (m : JsMap V) (k : string) : option V :=
  match m with
  | [] => None
  | (k', v) :: m' => if String.eqb k' k then Some v else Map_get m' k
  end.

Definition Map_has {V : Type} (m : JsMap V) (k : string) : bool :=
  match Map_get m k with
  | Some _ => true
  | None => false
  end.

(** [map.set(k, v)]: a known key keeps its place, a new one goes last. *)
Fixpoint Map_set {V : Type} (m : JsMap V) (k : string) (v : V) : JsMap V :=
  match m with
  | [] => [(k, v)]
  | (k', v') :: m' =>
      if String.eqb k' k then (k', v) :: m' else (k', v') :: Map_set m' k v
  end.

(** ** [Array.prototype.sort]

    The sort is stable; an entry moves behind another only when the
    comparator is positive on the pair (a NaN counts as zero).  Where the
    comparator is not a consistent order the language leaves the resulting
    order to the engine; what is proved below for such inputs uses only
    that the result is a rearrangement of the array. *)

Definition positive (v : number) : bool := num_lt (of_Z 0) v.

Section Sort.
Context {A : Type} (cmp : A -> A -> number).

Fixpoint insert (x : A) (l : list A) : list A :=
  match l with
  | [] => [x]
  | y :: l' => if positive (cmp x y) then y :: insert x l' else x :: l
  end.

Definition sort (l : list A) : list A := fold_right insert [] l.
End Sort.

(** ** The browser's [Date]

    What the language leaves to the browser.  A text that is not a date of
    the form [YYYY-MM-DD] is parsed by the browser's own rules, and
    [getHours] reports the hour of the browser's local time: both depend on
    the engine, the time zone and its daylight-saving rules. *)
Class Host : Type := {
  (** the time value of [new Date(s)] for a text [s] that is not a date of
      the form [YYYY-MM-DD]; NaN for an Invalid Date *)
  other_time_value : string -> number;
  (** [new Date(s).getHours()]; NaN for an Invalid Date *)
  local_hours : string -> number
}.

Section WithHost.
Context {host : Host}.

(** The time value of [new Date(s)], as used by the comparator of the
    sort. *)
Definition Date_value (s : string) : number :=
  match parse_date s with
  | Some (y, m, d) => of_Z (date_value y m d)
  | None => other_time_value s
  end.

(** [new Date(s).getHours()]. *)
Definition Date_getHours (s : string) : number := local_hours s.

(** ** [buildDaily] *)

(** The body of [list.forEach]: lines 15-17. *)
Definition group_item (map : JsMap (list Item.t)) (item : Item.t)
  : completion (JsMap (list Item.t)) :=
  let date := fst (split " " (Item.dt_txt item)) in
  let map := if negb (Map_has map date) then Map_set map date [] else map in
  match Map_get map date with
  | Some items => Normal (Map_set map date (items ++ [item]))
  | None => Throw
  end.

(** The comparator of line 20. *)
Definition by_date (a b : string * list Item.t) : number :=
  num_sub (Date_value (fst a)) (Date_value (fst b)).

Definition noon_gap (i : Item.t) : number :=
  Math_abs (num_sub (Date_getHours (Item.dt_txt i)) (of_Z 12)).

(** The body of [items.forEach]: lines 26-28. *)
Definition closer (best i : Item.t) : Item.t :=
  if num_lt (noon_gap i) (noon_gap best) then i else best.

(** The callback of [.map]: lines 22-30.  [items[0]] of an empty array is
    undefined, and so is [weather[0]]; reading a field of it throws. *)
Definition summarize (entry : string * list Item.t) : completion Day.t :=
  let (date, items) := entry in
  let min := Math_min (map (fun i => Fin (Main.temp_min (Item.main i))) items) in
  let max := Math_max (map (fun i => Fin (Main.temp_max (Item.main i))) items) in
  match items with
  | [] => Throw
  | first :: _ =>
      let best := fold_left closer items first in
      match Item.weather best with
      | [] => Throw
      | w0 :: _ =>
          Normal (Day.make date (Math_round min) (Math_round max)
                    (Weather.icon w0) (Weather.main w0))
      end
  end.

Definition buildDaily (list : Datatypes.list Item.t) : completion (Datatypes.list Day.t) :=
  map <- forEachM group_item list [] ;;
  days <- mapM summarize (sort by_date map) ;;
  Normal (firstn 5 days).

(** ** What the summaries are measured against *)

(** Calendar order on (year, month, day). *)
Definition calendar_lt (a b : Z * Z * Z) : Prop :=
  let '(y, m, d) := a in
  let '(y', m', d') := b in
  y < y' \/ (y = y' /\ (m < m' \/ (m = m' /\ d < d'))).

(** Calendar order on date strings. *)
Definition earlier (a b : string) : Prop :=
  match parse_date a, parse_date b with
  | Some x, Some y => calendar_lt x y
  | _, _ => False
  end.

(** The calendar-date key of a sample: [item.dt_txt.split(" ")[0]]. *)
Definition date_of (i : Item.t) : string := fst (split " " (Item.dt_txt i)).

(** The samples of one date, in the order of the feed. *)
Definition on_date (d : string) (l : list Item.t) : list Item.t :=
  filter (fun i => String.eqb (date_of i) d) l.

(** The map after the samples [seen]: one key per date, each holding the
    samples of that date in the order of the feed. *)
Definition grouped (seen : list Item.t) (m : JsMap (list Item.t)) : Prop :=
  NoDup (map fst m) /\
  forall d, Map_get m d = match on_date d seen with
                          | [] => None
                          | g => Some g
                          end.

(** A sample as the feed provides it: a timestamp [YYYY-MM-DD HH:MM:SS] and
    at least one weather condition. *)
Definition is_sample (i : Item.t) : bool :=
  match parse_timestamp (Item.dt_txt i), Item.weather i with
  | Some _, _ :: _ => true
  | _, _ => false
  end.

(** The time value of the key of an entry of the map, and the entries
    whose key is a date. *)
Definition key_value (e : string * list Item.t) : Z :=
  match parse_date (fst e) with
  | Some (y, m, d) => date_value y m d
  | None => 0
  end.

Definition key_ok (e : string * list Item.t) : Prop := parse_date (fst e) <> None.

(** The order of the keys of the sort. *)
Definition key_le {A : Type} (key : A -> Z) (a b : A) : Prop := key a <= key b.

(** [m] is the least, respectively the greatest, element of [l]. *)
Definition is_minimum (m : Q) (l : list Q) : Prop :=
  In m l /\ forall x, In x l -> (m <= x)%Q.

Definition is_maximum (m : Q) (l : list Q) : Prop :=
  In m l /\ forall x, In x l -> (x <= m)%Q.

(** [z] is an integer nearest to [q]. *)
Definition nearest_integer (z : Z) (q : Q) : Prop :=
  (Qabs (inject_Z z - q) <= 1 # 2)%Q.

(** [items.map(i => i.main.temp_min)] and [items.map(i => i.main.temp_max)]. *)
Definition temps_min (g : list Item.t) : list Q :=
  map (fun i => Main.temp_min (Item.main i)) g.

Definition temps_max (g : list Item.t) : list Q :=
  map (fun i => Main.temp_max (Item.main i)) g.

(** The hour of the day that the timestamp of a sample writes. *)
Definition hour_of (i : Item.t) : Z :=
  match parse_timestamp (Item.dt_txt i) with
  | Some (_, (h, _, _)) => h
  | None => 0
  end.


(** The distance of a sample from 12:00, in hours, by the hour the browser
    reads from its timestamp. *)
Definition noon_distance (i : Item.t) : Q :=
  match Date_getHours (Item.dt_txt i) with
  | Fin h => Qabs (h - inject_Z 12)
  | _ => 0%Q
  end.


(** The sample the loop of lines 24-29 ends on: it starts from [items[0]]
    and goes through all of [items]. *)
Definition representative (items : list Item.t) : option Item.t :=
  match items with
  | [] => None
  | first :: _ => Some (fold_left closer items first)
  end.

(** ** The [App] component *)

Local Open Scope string_scope.

(** The two values [units] takes: ["metric"] and ["imperial"]. *)
Inductive Units : Type := metric | imperial.

Definition units_text (u : Units) : string :=
  match u with
  | metric => "metric"
  | imperial => "imperial"
  end.

(** The updater of line 115: [prev === "metric" ? "imperial" : "metric"]. *)
Definition toggled (prev : Units) : Units :=
  match prev with
  | metric => imperial
  | imperial => metric
  end.

(** The seven [useState] cells of lines 42-48. *)
Record State : Type := mkState {
  query : string;
  units : Units;
  now : option Current.t;
  days : list Day.t;
  loading : bool;
  errorMsg : string;
  lastCity : string
}.

Definition setQuery (v : string) (s : State) : State :=
  mkState v (units s) (now s) (days s) (loading s) (errorMsg s) (lastCity s).
Definition setUnits (v : Units) (s : State) : State :=
  mkState (query s) v (now s) (days s) (loading s) (errorMsg s) (lastCity s).
Definition setNow (v : option Current.t) (s : State) : State :=
  mkState (query s) (units s) v (days s) (loading s) (errorMsg s) (lastCity s).
Definition setDays (v : list Day.t) (s : State) : State :=
  mkState (query s) (units s) (now s) v (loading s) (errorMsg s) (lastCity s).
Definition setLoading (v : bool) (s : State) : State :=
  mkState (query s) (units s) (now s) (days s) v (errorMsg s) (lastCity s).
Definition setErrorMsg (v : string) (s : State) : State :=
  mkState (query s) (units s) (now s) (days s) (loading s) v (lastCity s).
Definition setLastCity (v : string) (s : State) : State :=
  mkState (query s) (units s) (now s) (days s) (loading s) (errorMsg s) v.

(** The first render: lines 42-48. *)
Definition initial_state : State := mkState "" metric None [] false "" "".

(** The two endpoints of lines 63-64. *)
Inductive Endpoint : Type := weather_endpoint | forecast_endpoint.

(** One [axios.get]: the endpoint and [params: { q, units, appid }]. *)
Record Request : Type := mkRequest {
  endpoint : Endpoint;
  q : string;
  units_param : string;
  appid : string
}.

(** A call of [fetchWeather] suspended at the [await] of line 62. *)
Record Fetch : Type := mkFetch { city : string; unit : Units }.

(** The component together with its surroundings: the requests sent so far,
    oldest first, and the calls still waiting for their answers. *)
Record Config : Type := mkConfig {
  state : State;
  requests : list Request;
  pending : list Fetch
}.

Definition initial : Config := mkConfig initial_state [] [].

Definition missing_key_message : string := "Missing OpenWeather API key in .env.local".
Definition not_found_message : string := "City not found. Try another name.".

(** What happens to the component: the input changes, the form is submitted,
    the unit toggle is clicked, or the [Promise.all] of the [k]-th waiting
    call settles; [None] stands for a request that failed. *)
Inductive Event : Type :=
| Change (text : string)
| Submit
| ToggleUnits
| Settle (k : nat) (w : option Current.t) (f : option (list Item.t)).

(** The pair of requests of lines 62-65. *)
Definition paired_requests (key city : string) (unit : Units) : list Request :=
  [ mkRequest weather_endpoint city (units_text unit) key;
    mkRequest forecast_endpoint city (units_text unit) key ].

(** The [catch] and [finally] blocks: lines 69-72. *)
Definition on_failure (s : State) : State :=
  setLoading false (setErrorMsg not_found_message (setDays [] (setNow None s))).

(** [fetchWeather] after the [await]: lines 66-72.  The updates of one run
    are applied together before the next render. *)
Definition resume (call : Fetch) (w : option Current.t) (f : option (list Item.t))
  (s : State) : State :=
  match w, f with
  | Some w_data, Some f_list =>
      let s := setNow (Some w_data) s in
      match buildDaily f_list with
      | Normal summary => setLoading false (setLastCity (city call) (setDays summary s))
      | Throw => on_failure s
      end
  | _, _ => on_failure s
  end.

Fixpoint remove_nth {A : Type} (k : nat) (l : list A) : list A :=
  match k, l with
  | _, [] => []
  | O, _ :: l' => l'
  | S k', x :: l' => x :: remove_nth k' l'
  end.

Section Controller.

(** [API_KEY] is read by [fetchWeather] and declared nowhere in the file
    (line 5 binds the environment's value to [apiKey] instead); it stands
    here for the configured key, absent when the environment has none. *)
Variable API_KEY : option string.

Definition key_configured : bool :=
  match API_KEY with
  | Some k => truthy k
  | None => false
  end.

Definition key_text : string :=
  match API_KEY with
  | Some k => k
  | None => ""
  end.

(** [fetchWeather] up to the [await]: lines 57-65. *)
Definition fetchWeather (city : string) (unit : Units) (c : Config) : Config :=
  if negb key_configured then
    mkConfig (setErrorMsg missing_key_message (state c)) (requests c) (pending c)
  else if negb (truthy city) then c
  else
    mkConfig (setErrorMsg "" (setLoading true (state c)))
      (requests c ++ paired_requests key_text city unit)
      (pending c ++ [mkFetch city unit]).

(** [onSubmit]: line 75. *)
Definition onSubmit (c : Config) : Config :=
  fetchWeather (trim (query (state c))) (units (state c)) c.

(** The click of line 115 followed by the effect of lines 78-81, which
    runs because [units] has changed. *)
Definition onToggle (c : Config) : Config :=
  let s := setUnits (toggled (units (state c))) (state c) in
  let c := mkConfig s (requests c) (pending c) in
  if truthy (lastCity s) then fetchWeather (lastCity s) (units s) c else c.

(** What the handler of an event does to the configuration.  Which events
    the page offers in a configuration is [can_occur], below. *)
Definition step (c : Config) (ev : Event) : Config :=
  match ev with
  | Change text => mkConfig (setQuery text (state c)) (requests c) (pending c)
  | Submit => onSubmit c
  | ToggleUnits => onToggle c
  | Settle k w f =>
      match nth_error (pending c) k with
      | Some call =>
          mkConfig (resume call w f (state c)) (requests c) (remove_nth k (pending c))
      | None => c
      end
  end.

(** The configuration after a sequence of events, from the first render.
    The effect of lines 78-81 also runs after the first render, where
    [lastCity] is empty and nothing is fetched. *)
Definition run (evs : list Event) : Config := fold_left step evs initial.

(** The city of the search that [ev] completes successfully in [c], if it
    does. *)
Definition completes (c : Config) (ev : Event) : option string :=
  match ev with
  | Settle k (Some _) (Some f_list) =>
      match nth_error (pending c) k, buildDaily f_list with
      | Some call, Normal _ => Some (city call)
      | _, _ => None
      end
  | _ => None
  end.

(** The city of the latest successful search of a sequence of events. *)
Fixpoint last_success (c : Config) (evs : list Event) (found : option string)
  : option string :=
  match evs with
  | [] => found
  | ev :: evs' =>
      last_success (step c ev) evs'
        (match completes c ev with
         | Some a => Some a
         | None => found
         end)
  end.

(** [lastCity] is the city of the latest successful search, and the
    calls that wait were all started with a key and a city. *)
Definition tracks (c : Config) (found : option string) : Prop :=
  lastCity (state c) = match found with Some a => a | None => EmptyString end /\
  (forall a, found = Some a -> truthy a = true /\ key_configured = true) /\
  (forall call, In call (pending c) ->
                truthy (city call) = true /\ key_configured = true).

End Controller.

(** The unit toggle is drawn inside [{now && (...)}], lines 104-147. *)
Definition toggle_shown (s : State) : bool :=
  match now s with
  | Some _ => true
  | None => false
  end.

(** The banner of line 156. *)
Definition error_shown (s : State) : bool := truthy (errorMsg s).

(** The events the page offers: the unit toggle can be clicked only while
    it is drawn, and only a call that waits can settle. *)
Definition can_occur (c : Config) (ev : Event) : bool :=
  match ev with
  | ToggleUnits => toggle_shown (state c)
  | Settle k _ _ => (k <? List.length (pending c))%nat
  | _ => true
  end.

(** A sequence of events each of which the page offers when its turn
    comes. *)
Fixpoint feasible (API_KEY : option string) (c : Config) (evs : list Event) : bool :=
  match evs with
  | [] => true
  | ev :: evs' => can_occur c ev && feasible API_KEY (step API_KEY c ev) evs'
  end.

(** A text that is empty or made of white space only. *)
Definition whitespace_only (s : string) : bool :=
  forallb is_white (list_ascii_of_string s).

(** ** What the controller is measured against *)

(** [now] and [days] are both in their initial, cleared condition, or
    both hold what one answered search has delivered: the body of its
    current-conditions response and the summary of its forecast list. *)
Definition paired (evs : list Event) (s : State) : Prop :=
  (now s = None /\ days s = []) \/
  (exists k w f,
      In (Settle k (Some w) (Some f)) evs /\
      now s = Some w /\ buildDaily f = Normal (days s)).

(** How one event treats the pair: a settling search sets both from its
    answers or clears both, anything else leaves both as they are. *)
Definition refreshed_together (c : Config) (ev : Event) (c' : Config) : Prop :=
  match ev with
  | Settle k w f =>
      match nth_error (pending c) k with
      | Some _ =>
          match w, f with
          | Some w_data, Some f_list =>
              match buildDaily f_list with
              | Normal summary =>
                  now (state c') = Some w_data /\ days (state c') = summary
              | Throw => now (state c') = None /\ days (state c') = []
              end
          | _, _ => now (state c') = None /\ days (state c') = []
          end
      | None => now (state c') = now (state c) /\ days (state c') = days (state c)
      end
  | _ => now (state c') = now (state c) /\ days (state c') = days (state c)
  end.

(** The search whose answers are [w] and [f] has failed: one of the two
    requests failed, or the forecast list cannot be summarized. *)
Definition failed (w : option Current.t) (f : option (list Item.t)) : Prop :=
  w = None \/ f = None \/ exists f_list, f = Some f_list /\ buildDaily f_list = Throw.

End WithHost.

(** ** Sample data *)

Local Open Scope string_scope.

Definition sample (dt : string) (lo hi : Q) (icon main : string) : Item.t :=
  Item.make dt (Main.make lo hi) [Weather.make icon main].

Definition feed_example : list Item.t :=
  [ sample "2024-03-02 09:00:00" (10.4) (12.5) "02d" "Clouds";
    sample "2024-03-01 10:00:00" (3.2) (7.5) "10d" "Rain";
    sample "2024-03-02 12:00:00" (9.6) (14.2) "01d" "Clear";
    sample "2024-03-01 14:00:00" (2.6) (8.4) "04d" "Clouds";
    sample "2024-03-02 15:00:00" (11.0) (13.9) "03d" "Clouds" ]%string.

Definition paris_now : Current.t :=
  Current.make "Paris" "FR" (11.3) 71 (4.1) [Weather.make "04d" "Clouds"].

Definition sample_key : option string := Some "0123456789abcdef"%string.

(** A search for Paris that succeeds. *)
Definition session_paris : list Event :=
  [Change " Paris "; Submit; Settle 0 (Some paris_now) (Some feed_example)].

(** Then a search for another city, still waiting for its answers. *)
Definition session_second : list Event :=
  session_paris ++ [Change "Atlantis"; Submit].

Local Close Scope string_scope.

(** ** Further definitions *)

(** The distinct elements of a list, each at the place where it occurs
    first. *)
Fixpoint distinct (l : list string) : list string :=
  match l with
  | [] => []
  | x :: l' => x :: filter (fun y => negb (String.eqb y x)) (distinct l')
  end.

(** The first and the last unit of a string. *)
Definition first_unit (s : string) : option ascii :=
  match s with
  | EmptyString => None
  | String c _ => Some c
  end.

Fixpoint last_unit (s : string) : option ascii :=
  match s with
  | EmptyString => None
  | String c r =>
      match last_unit r with
      | Some c' => Some c'
      | None => Some c
      end
  end.

(** A unit that is not white space, or no unit at all. *)
Definition not_white (o : option ascii) : Prop :=
  match o with
  | Some c => is_white c = false
  | None => True
  end.

(** [pieces.join(sep)] for a non-empty array of pieces. *)
Fixpoint join (sep : ascii) (p : string) (ps : list string) : string :=
  match ps with
  | [] => p
  | q :: qs => (p ++ String sep (join sep q qs))%string
  end.

(** Does the unit [c] occur in [s]? *)
Fixpoint has_unit (c : ascii) (s : string) : bool :=
  match s with
  | EmptyString => false
  | String c' r => Ascii.eqb c' c || has_unit c r
  end.

(** The number of clicks on the unit toggle among the events. *)
Fixpoint count_toggles (evs : list Event) : nat :=
  match evs with
  | [] => O
  | ToggleUnits :: evs' => S (count_toggles evs')
  | _ :: evs' => count_toggles evs'
  end.

(** The calls whose requests make up what has been sent. *)
Definition sent_by (API_KEY : option string) (calls : list Fetch) (c : Config) : Prop :=
  requests c =
    flat_map (fun call => paired_requests (key_text API_KEY) (city call) (unit call)) calls /\
  Forall (fun call => truthy (city call) = true /\ trim (city call) = city call) calls /\
  (calls <> [] -> key_configured API_KEY = true) /\
  incl (pending c) calls /\
  (lastCity (state c) = EmptyString \/
   exists call, In call calls /\ city call = lastCity (state c)).

(** The calls that wait were started with a key and a city, and what is
    displayed comes with a recorded city. *)
Definition started_with_key (API_KEY : option string) (c : Config) : Prop :=
  (forall call, In call (pending c) ->
                truthy (city call) = true /\ key_configured API_KEY = true) /\
  (now (state c) <> None ->
   truthy (lastCity (state c)) = true /\ key_configured API_KEY = true).

(** A browser that reads a timestamp as the local time it writes, and no
    other text. *)
Definition plain_host : Host :=
  {| other_time_value := fun _ => NaN;
     local_hours := fun s =>
       match parse_timestamp s with
       | Some (_, (h, _, _)) => of_Z h
       | None => NaN
       end |}.

(** The summary of [feed_example]. *)
Definition summary_example : list Day.t :=
  [ Day.make "2024-03-01" (of_Z 3) (of_Z 8) "10d" "Rain";
    Day.make "2024-03-02" (of_Z 10) (of_Z 14) "01d" "Clear" ]%string.

Section Country.

(** [new Intl.DisplayNames([navigator.language || "en"], {type:"region"}).of(code)]
    belongs to the browser: it yields a name, or undefined, or throws. *)
Variable region_name : string -> completion (option string).

(** [countryName]: lines 35-39. *)
Definition countryName (code : string) : string :=
  match region_name code with
  | Normal (Some name) => if truthy name then name else code
  | Normal None => code
  | Throw => code
  end.

End Country.

(** * Properties *)

Section Properties.
Context {host : Host}.

(** ** Calendar arithmetic *)

Lemma DayFromYear_succ (y : Z) :
  DayFromYear (y + 1) = DayFromYear y + 365 + (if is_leap y then 1 else 0).
Proof.
  unfold DayFromYear, is_leap.
  destruct (y mod 4 =? 0) eqn:E4; destruct (y mod 100 =? 0) eqn:E100;
    destruct (y mod 400 =? 0) eqn:E400; cbn [andb orb negb];
    rewrite ?Z.eqb_eq, ?Z.eqb_neq in *;
    Z.to_euclidean_division_equations; lia.
Qed.

Lemma DayFromYear_mono (a b : Z) : a <= b -> DayFromYear a <= DayFromYear b.
Proof.
  unfold DayFromYear. intros H.
  Z.to_euclidean_division_equations; lia.
Qed.

Lemma day_of_year_bounds (y m d : Z) :
  valid_date y m d = true ->
  0 <= days_before_month y m + (d - 1) <= 364 + (if is_leap y then 1 else 0).
Proof.
  unfold valid_date. rewrite !andb_true_iff, !Z.leb_le.
  intros [[[Hm1 Hm2] Hd1] Hd2].
  assert (Hm : m = 1 \/ m = 2 \/ m = 3 \/ m = 4 \/ m = 5 \/ m = 6 \/ m = 7 \/
               m = 8 \/ m = 9 \/ m = 10 \/ m = 11 \/ m = 12) by lia.
  unfold days_before_month; unfold days_in_month in Hd2.
  destruct (is_leap y);
    repeat (destruct Hm as [-> | Hm]; [lia | ]); subst m; lia.
Qed.

Lemma days_before_month_next (y m m' : Z) :
  1 <= m -> m < m' -> m' <= 12 ->
  days_before_month y m + days_in_month y m <= days_before_month y m'.
Proof.
  intros H1 H2 H3.
  assert (Hm : m = 1 \/ m = 2 \/ m = 3 \/ m = 4 \/ m = 5 \/ m = 6 \/ m = 7 \/
               m = 8 \/ m = 9 \/ m = 10 \/ m = 11) by lia.
  assert (Hm' : m' = 2 \/ m' = 3 \/ m' = 4 \/ m' = 5 \/ m' = 6 \/ m' = 7 \/
                m' = 8 \/ m' = 9 \/ m' = 10 \/ m' = 11 \/ m' = 12) by lia.
  unfold days_before_month, days_in_month.
  destruct (is_leap y);
    repeat (destruct Hm as [-> | Hm]; [ | ]); subst;
    repeat (destruct Hm' as [-> | Hm']; [try lia | ]); subst; try lia.
Qed.

(** The time value grows with the calendar date. *)
Lemma date_value_lt (a b : Z * Z * Z) :
  (let '(y, m, d) := a in valid_date y m d = true) ->
  (let '(y, m, d) := b in valid_date y m d = true) ->
  calendar_lt a b ->
  (let '(y, m, d) := a in date_value y m d) < (let '(y, m, d) := b in date_value y m d).
Proof.
  destruct a as [[y m] d], b as [[y' m'] d']. intros Va Vb Hlt.
  pose proof (day_of_year_bounds _ _ _ Va) as Ba.
  pose proof (day_of_year_bounds _ _ _ Vb) as Bb.
  unfold date_value, msPerDay.
  apply Z.mul_lt_mono_pos_r; [lia | ].
  destruct Hlt as [Hy | [-> [Hm | [-> Hd]]]].
  - pose proof (DayFromYear_succ y) as Hs.
    pose proof (DayFromYear_mono (y + 1) y') as Hmono.
    lia.
  - unfold valid_date in Va, Vb. rewrite !andb_true_iff, !Z.leb_le in Va, Vb.
    pose proof (days_before_month_next y' m m') as Hn. lia.
  - lia.
Qed.

Lemma calendar_trichotomy (a b : Z * Z * Z) :
  calendar_lt a b \/ a = b \/ calendar_lt b a.
Proof.
  destruct a as [[y m] d], b as [[y' m'] d']. unfold calendar_lt.
  destruct (Z.lt_trichotomy y y') as [? | [-> | ?]]; [lia | | lia].
  destruct (Z.lt_trichotomy m m') as [? | [-> | ?]]; [lia | | lia].
  destruct (Z.lt_trichotomy d d') as [? | [-> | ?]]; [lia | | lia].
  right; left; reflexivity.
Qed.

Lemma calendar_lt_trans (a b c : Z * Z * Z) :
  calendar_lt a b -> calendar_lt b c -> calendar_lt a c.
Proof.
  destruct a as [[y m] d], b as [[y' m'] d'], c as [[y'' m''] d''].
  unfold calendar_lt. lia.
Qed.

(** ** Reading dates *)

Lemma Some_eq {A : Type} (a b : A) : Some a = Some b -> a = b.
Proof. congruence. Qed.

Lemma digit_range (c : ascii) (x : Z) :
  digit c = Some x -> 0 <= x <= 9 /\ Z.of_N (N_of_ascii c) = x + 48.
Proof.
  unfold digit.
  destruct ((48 <=? Z.of_N (N_of_ascii c)) && (Z.of_N (N_of_ascii c) <=? 57)) eqn:E;
    [ | discriminate].
  rewrite andb_true_iff, !Z.leb_le in E. intros [= <-]. lia.
Qed.

Lemma digit_inj (c c' : ascii) (x : Z) :
  digit c = Some x -> digit c' = Some x -> c = c'.
Proof.
  intros H H'. apply digit_range in H, H'.
  rewrite <- (ascii_N_embedding c), <- (ascii_N_embedding c').
  f_equal. lia.
Qed.

Lemma digits2_range (a b : ascii) (x : Z) :
  digits2 a b = Some x -> 0 <= x <= 99.
Proof.
  unfold digits2.
  destruct (digit a) as [u | ] eqn:Ea; [ | discriminate].
  destruct (digit b) as [v | ] eqn:Eb; [ | discriminate].
  apply digit_range in Ea, Eb. intros E%Some_eq. lia.
Qed.

Lemma digits2_inj (a b a' b' : ascii) (x : Z) :
  digits2 a b = Some x -> digits2 a' b' = Some x -> a = a' /\ b = b'.
Proof.
  unfold digits2.
  destruct (digit a) as [u | ] eqn:Ea; [ | discriminate].
  destruct (digit b) as [v | ] eqn:Eb; [ | discriminate].
  destruct (digit a') as [u' | ] eqn:Ea'; [ | discriminate].
  destruct (digit b') as [v' | ] eqn:Eb'; [ | discriminate].
  intros E0%Some_eq E%Some_eq.
  pose proof (digit_range _ _ Ea). pose proof (digit_range _ _ Eb).
  pose proof (digit_range _ _ Ea'). pose proof (digit_range _ _ Eb').
  assert (u' = u) by lia. assert (v' = v) by lia. subst.
  split; eapply digit_inj; eassumption.
Qed.

Lemma digits4_inj (a b c d a' b' c' d' : ascii) (x : Z) :
  digits4 a b c d = Some x -> digits4 a' b' c' d' = Some x ->
  a = a' /\ b = b' /\ c = c' /\ d = d'.
Proof.
  unfold digits4.
  destruct (digits2 a b) as [u | ] eqn:E1; [ | discriminate].
  destruct (digits2 c d) as [v | ] eqn:E2; [ | discriminate].
  destruct (digits2 a' b') as [u' | ] eqn:E1'; [ | discriminate].
  destruct (digits2 c' d') as [v' | ] eqn:E2'; [ | discriminate].
  intros E0%Some_eq E%Some_eq.
  pose proof (digits2_range _ _ _ E1). pose proof (digits2_range _ _ _ E2).
  pose proof (digits2_range _ _ _ E1'). pose proof (digits2_range _ _ _ E2').
  assert (u' = u) by lia. assert (v' = v) by lia. subst.
  destruct (digits2_inj _ _ _ _ _ E1 E1'), (digits2_inj _ _ _ _ _ E2 E2'). auto.
Qed.

Lemma digit_not_space (c : ascii) (x : Z) : digit c = Some x -> c <> " "%char.
Proof. intros H ->. discriminate H. Qed.

Lemma digits2_not_space (a b : ascii) (x : Z) :
  digits2 a b = Some x -> a <> " "%char /\ b <> " "%char.
Proof.
  unfold digits2.
  destruct (digit a) eqn:Ea; [ | discriminate].
  destruct (digit b) eqn:Eb; [ | discriminate].
  intros _. split; eapply digit_not_space; eassumption.
Qed.

(** What [parse_date_units] accepts: ten units, none of them a space, that
    spell a date of the calendar. *)
Lemma parse_date_units_Some (l : list ascii) (y m d : Z) :
  parse_date_units l = Some (y, m, d) ->
  valid_date y m d = true /\ List.length l = 10%nat /\ Forall (fun c => c <> " "%char) l.
Proof.
  unfold parse_date_units.
  do 10 (destruct l as [ | ? l]; [discriminate | ]).
  destruct l; [ | discriminate].
  destruct (Ascii.eqb a3 "-" && Ascii.eqb a6 "-") eqn:Eh; [ | discriminate].
  rewrite andb_true_iff, !Ascii.eqb_eq in Eh. destruct Eh as [-> ->].
  unfold digits4.
  destruct (digits2 a a0) eqn:E1; [ | discriminate].
  destruct (digits2 a1 a2) eqn:E2; [ | discriminate].
  destruct (digits2 a4 a5) eqn:E3; [ | discriminate].
  destruct (digits2 a7 a8) eqn:E4; [ | discriminate].
  destruct (valid_date _ _ _) eqn:V; [ | discriminate].
  intros [= <- <- <-]. split; [exact V | split; [reflexivity | ]].
  apply digits2_not_space in E1, E2, E3, E4.
  repeat constructor; try tauto; discriminate.
Qed.

Lemma parse_date_units_inj (l l' : list ascii) (t : Z * Z * Z) :
  parse_date_units l = Some t -> parse_date_units l' = Some t -> l = l'.
Proof.
  unfold parse_date_units.
  do 10 (destruct l as [ | ? l]; [discriminate | ]).
  destruct l; [ | discriminate].
  do 10 (destruct l' as [ | ? l']; [discriminate | ]).
  destruct l'; [ | discriminate].
  destruct (Ascii.eqb a3 "-" && Ascii.eqb a6 "-") eqn:Eh; [ | discriminate].
  destruct (Ascii.eqb a13 "-" && Ascii.eqb a16 "-") eqn:Eh'; [ | discriminate].
  rewrite andb_true_iff, !Ascii.eqb_eq in Eh, Eh'.
  destruct Eh as [-> ->], Eh' as [-> ->].
  destruct (digits4 a a0 a1 a2) eqn:E1; [ | discriminate].
  destruct (digits2 a4 a5) eqn:E2; [ | discriminate].
  destruct (digits2 a7 a8) eqn:E3; [ | discriminate].
  destruct (digits4 a9 a10 a11 a12) eqn:E1'; [ | discriminate].
  destruct (digits2 a14 a15) eqn:E2'; [ | discriminate].
  destruct (digits2 a17 a18) eqn:E3'; [ | discriminate].
  destruct (valid_date z z0 z1); [ | discriminate].
  destruct (valid_date z2 z3 z4); [ | discriminate].
  intros [= <-] [= -> -> ->].
  destruct (digits4_inj _ _ _ _ _ _ _ _ _ E1 E1') as (-> & -> & -> & ->).
  destruct (digits2_inj _ _ _ _ _ E2 E2') as (-> & ->).
  destruct (digits2_inj _ _ _ _ _ E3 E3') as (-> & ->).
  reflexivity.
Qed.

Lemma parse_date_inj (s s' : string) (t : Z * Z * Z) :
  parse_date s = Some t -> parse_date s' = Some t -> s = s'.
Proof.
  unfold parse_date. intros H H'.
  rewrite <- (string_of_list_ascii_of_string s), <- (string_of_list_ascii_of_string s').
  f_equal. eapply parse_date_units_inj; eassumption.
Qed.

Lemma split_first_piece (l : list ascii) (r : list ascii) :
  Forall (fun c => c <> " "%char) l ->
  fst (split " " (string_of_list_ascii (l ++ " "%char :: r))) = string_of_list_ascii l.
Proof.
  induction 1 as [ | c l Hc Hl IH]; cbn [app string_of_list_ascii split].
  - destruct (split " " (string_of_list_ascii r)). reflexivity.
  - destruct (split " " (string_of_list_ascii (l ++ " "%char :: r))) as [p ps] eqn:E.
    apply Ascii.eqb_neq in Hc. rewrite Hc. cbn [fst] in *. rewrite IH. reflexivity.
Qed.

(** The date part of a timestamp is what [dt_txt.split(" ")[0]] yields. *)
Lemma parse_timestamp_date (s : string) (dt t : Z * Z * Z) :
  parse_timestamp s = Some (dt, t) ->
  parse_date (fst (split " " s)) = Some dt.
Proof.
  unfold parse_timestamp, parse_date.
  destruct (parse_date_units (firstn 10 (list_ascii_of_string s))) as [dt' | ] eqn:Ed;
    [ | discriminate].
  destruct (skipn 10 (list_ascii_of_string s)) as [ | sp clock] eqn:Es; [discriminate | ].
  destruct (Ascii.eqb sp " ") eqn:Esp; [ | discriminate].
  destruct (parse_clock_units clock); [ | discriminate].
  intros [= -> _]. apply Ascii.eqb_eq in Esp. subst sp.
  destruct dt as [[y m] d].
  destruct (parse_date_units_Some _ _ _ _ Ed) as (_ & _ & Hns).
  rewrite <- (string_of_list_ascii_of_string s) at 1.
  rewrite <- (firstn_skipn 10 (list_ascii_of_string s)) at 1.
  rewrite Es, split_first_piece by exact Hns.
  rewrite list_ascii_of_string_of_list_ascii. exact Ed.
Qed.

(** ** Grouping by date *)

Lemma Map_get_set {V : Type} (m : JsMap V) (k k' : string) (v : V) :
  Map_get (Map_set m k v) k' = if String.eqb k k' then Some v else Map_get m k'.
Proof.
  induction m as [ | [k0 v0] m IH]; cbn [Map_set Map_get].
  - reflexivity.
  - destruct (String.eqb_spec k0 k) as [-> | Hk]; cbn [Map_get].
    + destruct (String.eqb k k'); reflexivity.
    + rewrite IH. destruct (String.eqb_spec k0 k') as [-> | Hk'];
        [ | reflexivity].
      destruct (String.eqb_spec k k'); congruence.
Qed.

Lemma Map_set_keys {V : Type} (m : JsMap V) (k : string) (v : V) :
  map fst (Map_set m k v) = if Map_has m k then map fst m else map fst m ++ [k].
Proof.
  unfold Map_has.
  induction m as [ | [k0 v0] m IH]; cbn [Map_set Map_get map fst app].
  - reflexivity.
  - destruct (String.eqb k0 k); cbn [map fst].
    + reflexivity.
    + rewrite IH. destruct (Map_get m k); reflexivity.
Qed.

Lemma Map_get_None_keys {V : Type} (m : JsMap V) (k : string) :
  Map_get m k = None -> ~ In k (map fst m).
Proof.
  induction m as [ | [k0 v0] m IH]; cbn [Map_get map fst In].
  - tauto.
  - destruct (String.eqb_spec k0 k); [discriminate | ]. intuition.
Qed.

Lemma Map_get_In {V : Type} (m : JsMap V) (k : string) (v : V) :
  NoDup (map fst m) -> In (k, v) m -> Map_get m k = Some v.
Proof.
  induction m as [ | [k0 v0] m IH]; cbn [Map_get map fst In]; [tauto | ].
  intros Hnd [[= -> ->] | Hin].
  - rewrite String.eqb_refl. reflexivity.
  - inversion Hnd as [ | ? ? Hk0 Hm]; subst.
    destruct (String.eqb_spec k0 k) as [-> | _].
    + exfalso. apply Hk0. apply (in_map fst) in Hin. exact Hin.
    + auto.
Qed.

(** One round of the first [forEach]: the sample joins the array of its
    date, and a date seen for the first time takes the last place. *)
Lemma group_item_spec (m : JsMap (list Item.t)) (item : Item.t) :
  exists m',
    group_item m item = Normal m' /\
    map fst m' = (if Map_has m (date_of item) then map fst m
                  else map fst m ++ [date_of item]) /\
    forall k, Map_get m' k =
              if String.eqb (date_of item) k
              then Some (match Map_get m k with Some g => g | None => [] end ++ [item])
              else Map_get m k.
Proof.
  unfold group_item. fold (date_of item). set (d := date_of item).
  unfold Map_has.
  destruct (Map_get m d) as [g | ] eqn:Eg; cbv [negb].
  - rewrite Eg. eexists; split; [reflexivity | split].
    + rewrite Map_set_keys. unfold Map_has. rewrite Eg. reflexivity.
    + intros k. rewrite Map_get_set.
      destruct (String.eqb_spec d k) as [<- | _]; [rewrite Eg | ]; reflexivity.
  - rewrite Map_get_set, String.eqb_refl.
    eexists; split; [reflexivity | split].
    + rewrite !Map_set_keys. unfold Map_has. rewrite Map_get_set, String.eqb_refl, Eg.
      reflexivity.
    + intros k. rewrite !Map_get_set.
      destruct (String.eqb_spec d k) as [<- | _]; [rewrite Eg | ]; reflexivity.
Qed.

Lemma on_date_snoc (d : string) (seen : list Item.t) (item : Item.t) :
  on_date d (seen ++ [item]) =
  on_date d seen ++ (if String.eqb (date_of item) d then [item] else []).
Proof. unfold on_date. rewrite filter_app. reflexivity. Qed.

Lemma group_item_grouped (seen : list Item.t) (m : JsMap (list Item.t)) (item : Item.t) :
  grouped seen m ->
  exists m', group_item m item = Normal m' /\ grouped (seen ++ [item]) m'.
Proof.
  intros [Hnd Hget].
  destruct (group_item_spec m item) as (m' & Hrun & Hkeys & Hget').
  exists m'. split; [exact Hrun | split].
  - rewrite Hkeys. unfold Map_has.
    destruct (Map_get m (date_of item)) eqn:Eg; [exact Hnd | ].
    apply NoDup_app; [exact Hnd | repeat constructor; cbn; tauto | ].
    intros x Hx [<- | []]. exact (Map_get_None_keys _ _ Eg Hx).
  - intros d. rewrite Hget', on_date_snoc, Hget.
    destruct (String.eqb (date_of item) d).
    + destruct (on_date d seen); reflexivity.
    + rewrite app_nil_r. reflexivity.
Qed.

Lemma forEach_grouped (l seen : list Item.t) (m : JsMap (list Item.t)) :
  grouped seen m ->
  exists m', forEachM group_item l m = Normal m' /\ grouped (seen ++ l) m'.
Proof.
  revert seen m. induction l as [ | item l IH]; intros seen m Hg; cbn [forEachM].
  - exists m. rewrite app_nil_r. auto.
  - destruct (group_item_grouped _ _ item Hg) as (m1 & -> & Hg1). cbn [bind].
    destruct (IH _ _ Hg1) as (m' & Hrun & Hg').
    exists m'. rewrite <- app_assoc in Hg'. auto.
Qed.

Lemma grouped_nil : grouped [] [].
Proof. split; [constructor | reflexivity]. Qed.

Lemma grouped_entry (seen : list Item.t) (m : JsMap (list Item.t))
  (k : string) (g : list Item.t) :
  grouped seen m -> In (k, g) m -> g = on_date k seen /\ g <> [].
Proof.
  intros [Hnd Hget] Hin. apply (Map_get_In _ _ _ Hnd) in Hin.
  rewrite Hget in Hin. destruct (on_date k seen); [discriminate | ].
  injection Hin as <-. split; [reflexivity | discriminate].
Qed.

Lemma grouped_key (seen : list Item.t) (m : JsMap (list Item.t)) (i : Item.t) :
  grouped seen m -> In i seen -> In (date_of i) (map fst m).
Proof.
  intros [Hnd Hget] Hin.
  destruct (Map_get m (date_of i)) eqn:Eg.
  - clear - Eg. induction m as [ | [k0 v0] m IH]; cbn in *; [discriminate | ].
    destruct (String.eqb_spec k0 (date_of i)); auto.
  - rewrite Hget in Eg.
    assert (In i (on_date (date_of i) seen)) as Hi.
    { apply filter_In. split; [exact Hin | apply String.eqb_refl]. }
    destruct (on_date (date_of i) seen); [destruct Hi | discriminate].
Qed.

(** ** Numbers *)

Lemma Qlt_bool_iff (a b : Q) : Qlt_bool a b = true <-> (a < b)%Q.
Proof.
  unfold Qlt_bool. rewrite negb_true_iff, <- not_true_iff_false, Qle_bool_iff.
  split; [apply Qnot_le_lt | apply Qlt_not_le].
Qed.

Lemma Qlt_bool_Z (a b : Z) : Qlt_bool (inject_Z a) (inject_Z b) = (a <? b).
Proof.
  apply eq_true_iff_eq. rewrite Qlt_bool_iff, Z.ltb_lt, <- Zlt_Qlt. tauto.
Qed.

Lemma positive_diff (a b : Z) : positive (num_sub (of_Z a) (of_Z b)) = (b <? a).
Proof.
  unfold positive, of_Z, num_sub, num_lt.
  apply eq_true_iff_eq. rewrite Qlt_bool_iff, Z.ltb_lt.
  unfold Qlt, Qminus, Qplus, Qopp, inject_Z; cbn. lia.
Qed.

(** ** The sort *)

Section SortFacts.
Context {A : Type} (cmp : A -> A -> number).

Lemma insert_perm (x : A) (l : list A) : Permutation (insert cmp x l) (x :: l).
Proof.
  induction l as [ | y l IH]; cbn [insert]; [reflexivity | ].
  destruct (positive (cmp x y)); [ | reflexivity].
  rewrite IH. apply perm_swap.
Qed.

Lemma sort_perm (l : list A) : Permutation (sort cmp l) l.
Proof.
  induction l as [ | x l IH]; cbn [sort fold_right]; [reflexivity | ].
  rewrite insert_perm. constructor. exact IH.
Qed.

(** Where the comparator is the difference of an integral key, the
    result is in the order of the keys. *)
Context (key : A -> Z) (ok : A -> Prop).
Hypothesis cmp_key :
  forall a b, ok a -> ok b -> positive (cmp a b) = (key b <? key a).

Lemma insert_sorted (x : A) (l : list A) :
  ok x -> Forall ok l -> StronglySorted (key_le key) l ->
  StronglySorted (key_le key) (insert cmp x l).
Proof.
  intros Hx Hl Hs. induction Hs as [ | y l Hs IH Hy]; cbn [insert].
  - repeat constructor.
  - inversion Hl as [ | ? ? Hoky Hokl]; subst.
    rewrite (cmp_key _ _ Hx Hoky).
    destruct (Z.ltb_spec (key y) (key x)) as [Hlt | Hge].
    + constructor; [exact (IH Hokl) | ].
      eapply Permutation_Forall; [symmetry; apply insert_perm | ].
      constructor; [unfold key_le; lia | exact Hy].
    + constructor; [constructor; assumption | ].
      constructor; [exact Hge | ].
      eapply Forall_impl; [ | exact Hy]. unfold key_le. intros b Hb. lia.
Qed.

Lemma sort_sorted (l : list A) :
  Forall ok l -> StronglySorted (key_le key) (sort cmp l).
Proof.
  induction 1 as [ | x l Hx Hl IH]; cbn [sort fold_right]; [constructor | ].
  apply insert_sorted; [exact Hx | | exact IH].
  eapply Permutation_Forall; [symmetry; apply sort_perm | exact Hl].
Qed.
End SortFacts.

Lemma In_firstn {A : Type} (n : nat) (l : list A) (x : A) :
  In x (firstn n l) -> In x l.
Proof.
  revert l. induction n as [ | n IH]; intros [ | y l]; cbn [firstn In]; try tauto.
  intros [-> | Hin]; auto.
Qed.

Lemma StronglySorted_firstn {A : Type} (R : A -> A -> Prop) (n : nat) (l : list A) :
  StronglySorted R l -> StronglySorted R (firstn n l).
Proof.
  intros Hs. revert n. induction Hs as [ | x l Hs IH Hx]; intros [ | n]; cbn [firstn];
    try constructor; [apply IH | ].
  apply Forall_forall. intros y Hy. apply In_firstn in Hy.
  rewrite Forall_forall in Hx. auto.
Qed.

Lemma NoDup_firstn {A : Type} (n : nat) (l : list A) : NoDup l -> NoDup (firstn n l).
Proof.
  intros Hnd. revert n. induction Hnd as [ | x l Hx Hnd IH]; intros [ | n]; cbn [firstn];
    try constructor; [ | apply IH].
  intros Hin. apply Hx. eapply In_firstn; eassumption.
Qed.

Lemma mapM_Forall2 {A B : Type} (f : A -> completion B) (l : list A) (r : list B) :
  mapM f l = Normal r <-> Forall2 (fun x y => f x = Normal y) l r.
Proof.
  revert r. induction l as [ | x l IH]; intros r; cbn [mapM].
  - split; [intros [= <-]; constructor | inversion 1; reflexivity].
  - split.
    + destruct (f x) as [y | ] eqn:Ex; [ | discriminate]. cbn [bind].
      destruct (mapM f l) as [ys | ]; [ | discriminate]. cbn [bind].
      intros [= <-]. constructor; [exact Ex | apply IH; reflexivity].
    + inversion 1 as [ | ? y ? ys Hx Hl]; subst. rewrite Hx. cbn [bind].
      apply IH in Hl. rewrite Hl. reflexivity.
Qed.

(** ** The summaries *)

Lemma closer_cases (best i : Item.t) : closer best i = best \/ closer best i = i.
Proof. unfold closer. destruct (num_lt _ _); auto. Qed.

Lemma fold_closer_In (l : list Item.t) (b : Item.t) :
  In (fold_left closer l b) (b :: l).
Proof.
  revert b. induction l as [ | x l IH]; intros b; cbn [fold_left].
  - left; reflexivity.
  - destruct (IH (closer b x)) as [H | H].
    + rewrite <- H. destruct (closer_cases b x) as [-> | ->]; cbn; auto.
    + right; right; exact H.
Qed.

Lemma summarize_date (e : string * list Item.t) (d : Day.t) :
  summarize e = Normal d -> Day.date d = fst e.
Proof.
  destruct e as [k g]. unfold summarize.
  destruct g as [ | first rest]; [discriminate | ].
  destruct (Item.weather _); [discriminate | ].
  intros [= <-]. reflexivity.
Qed.

Lemma summarize_total (k : string) (g : list Item.t) :
  g <> [] -> Forall (fun i => is_sample i = true) g ->
  exists d, summarize (k, g) = Normal d.
Proof.
  intros Hne Hg. unfold summarize.
  destruct g as [ | first rest]; [congruence | ].
  pose proof (fold_closer_In (first :: rest) first) as Hin.
  assert (In (fold_left closer (first :: rest) first) (first :: rest)) as Hin'.
  { destruct Hin as [<- | Hin]; [left; reflexivity | exact Hin]. }
  rewrite Forall_forall in Hg. apply Hg in Hin'. unfold is_sample in Hin'.
  destruct (Item.weather _); [ | eexists; reflexivity].
  destruct (parse_timestamp _); discriminate.
Qed.

Lemma mapM_total {A B : Type} (f : A -> completion B) (l : list A) :
  Forall (fun x => exists y, f x = Normal y) l -> exists r, mapM f l = Normal r.
Proof.
  induction 1 as [ | x l [y Hy] Hl [r Hr]]; cbn [mapM].
  - eexists; reflexivity.
  - rewrite Hy, Hr. eexists; reflexivity.
Qed.

(** The shape of a run of [buildDaily]: the groups of the feed, sorted,
    summarized one by one, and cut to five. *)
Lemma buildDaily_groups (feed : list Item.t) :
  exists m,
    grouped feed m /\
    buildDaily feed =
      (days <- mapM summarize (sort by_date m) ;; Normal (firstn 5 days)).
Proof.
  destruct (forEach_grouped feed [] [] grouped_nil) as (m & Hrun & Hg).
  exists m. split; [exact Hg | ]. unfold buildDaily. rewrite Hrun. reflexivity.
Qed.

Lemma on_date_In (d : string) (l : list Item.t) (i : Item.t) :
  In i (on_date d l) -> In i l /\ date_of i = d.
Proof.
  unfold on_date. rewrite filter_In, String.eqb_eq. tauto.
Qed.

Lemma buildDaily_returns (feed : list Item.t) :
  Forall (fun i => is_sample i = true) feed ->
  exists m days,
    grouped feed m /\
    mapM summarize (sort by_date m) = Normal days /\
    buildDaily feed = Normal (firstn 5 days).
Proof.
  intros Hs. destruct (buildDaily_groups feed) as (m & Hg & Hrun).
  destruct (mapM_total summarize (sort by_date m)) as [days Hdays].
  { eapply Permutation_Forall; [symmetry; apply sort_perm | ].
    apply Forall_forall. intros [k g] Hin.
    destruct (grouped_entry _ _ _ _ Hg Hin) as [-> Hne].
    apply summarize_total; [exact Hne | ].
    apply Forall_forall. intros i Hi. apply on_date_In in Hi.
    rewrite Forall_forall in Hs. apply Hs. tauto. }
  exists m, days. rewrite Hrun, Hdays. auto.
Qed.

Lemma summaries_dates (entries : list (string * list Item.t)) (days : list Day.t) :
  mapM summarize entries = Normal days -> map Day.date days = map fst entries.
Proof.
  rewrite mapM_Forall2. induction 1 as [ | e d entries days He _ IH]; cbn [map].
  - reflexivity.
  - rewrite IH, (summarize_date _ _ He). reflexivity.
Qed.

(** *** Order of the result *)

Lemma by_date_key (a b : string * list Item.t) :
  key_ok a -> key_ok b -> positive (by_date a b) = (key_value b <? key_value a).
Proof.
  unfold key_ok, by_date, Date_value, key_value.
  destruct (parse_date (fst a)) as [[[y m] d] | ]; [ | congruence].
  destruct (parse_date (fst b)) as [[[y' m'] d'] | ]; [ | congruence].
  intros _ _. apply positive_diff.
Qed.

Lemma parse_date_valid (s : string) (y m d : Z) :
  parse_date s = Some (y, m, d) -> valid_date y m d = true.
Proof. unfold parse_date. intros H. apply parse_date_units_Some in H. tauto. Qed.

Lemma key_le_earlier (a b : string * list Item.t) :
  key_ok a -> key_ok b -> fst a <> fst b -> key_value a <= key_value b ->
  earlier (fst a) (fst b).
Proof.
  unfold key_ok, key_value, earlier.
  destruct (parse_date (fst a)) as [ta | ] eqn:Ea; [ | congruence].
  destruct (parse_date (fst b)) as [tb | ] eqn:Eb; [ | congruence].
  intros _ _ Hne Hle.
  destruct (calendar_trichotomy ta tb) as [Hlt | [-> | Hgt]].
  - exact Hlt.
  - exfalso. apply Hne. eapply parse_date_inj; eassumption.
  - exfalso. pose proof (date_value_lt tb ta) as Hv.
    destruct ta as [[y m] d], tb as [[y' m'] d'].
    apply parse_date_valid in Ea, Eb.
    specialize (Hv Eb Ea Hgt). lia.
Qed.

Lemma strictly_sorted (l : list (string * list Item.t)) :
  Forall key_ok l -> NoDup (map fst l) ->
  StronglySorted (key_le key_value) l ->
  StronglySorted earlier (map fst l).
Proof.
  intros Hok Hnd Hs.
  induction Hs as [ | a l Hs IH Ha]; cbn [map]; [constructor | ].
  inversion Hok as [ | ? ? Hoka Hokl]; subst.
  inversion Hnd as [ | ? ? Hna Hndl]; subst.
  constructor; [exact (IH Hokl Hndl) | ].
  apply Forall_forall. intros k Hk. apply in_map_iff in Hk.
  destruct Hk as (b & <- & Hb).
  rewrite Forall_forall in Ha, Hokl.
  apply key_le_earlier; [exact Hoka | exact (Hokl _ Hb) | | exact (Ha _ Hb)].
  intros E. apply Hna. rewrite E. apply in_map. exact Hb.
Qed.

Lemma grouped_keys_ok (feed : list Item.t) (m : JsMap (list Item.t)) :
  Forall (fun i => is_sample i = true) feed -> grouped feed m -> Forall key_ok m.
Proof.
  intros Hs Hg. apply Forall_forall. intros [k g] Hin.
  destruct (grouped_entry _ _ _ _ Hg Hin) as [-> Hne].
  destruct (on_date k feed) as [ | i rest] eqn:E; [congruence | ].
  assert (In i (on_date k feed)) as Hi by (rewrite E; left; reflexivity).
  apply on_date_In in Hi. destruct Hi as [Hi <-].
  rewrite Forall_forall in Hs. apply Hs in Hi. unfold is_sample in Hi.
  destruct (parse_timestamp (Item.dt_txt i)) as [[dt t] | ] eqn:Et; [ | discriminate].
  unfold key_ok, date_of. cbn [fst].
  rewrite (parse_timestamp_date _ _ _ Et). discriminate.
Qed.

Lemma Normal_eq {A : Type} (a b : A) : Normal a = Normal b -> a = b.
Proof. congruence. Qed.

Lemma Forall2_In_r {A B : Type} (R : A -> B -> Prop) (l : list A) (r : list B) (y : B) :
  Forall2 R l r -> In y r -> exists x, In x l /\ R x y.
Proof.
  induction 1 as [ | a b l r Hab _ IH]; cbn [In]; [tauto | ].
  intros [<- | Hy].
  - exists a. auto.
  - destruct (IH Hy) as (x & Hx & Hxy). exists x. auto.
Qed.

(** Every entry of the result is the summary of the samples of its date. *)
Lemma buildDaily_entry (feed : list Item.t) (out : list Day.t) (d : Day.t) :
  buildDaily feed = Normal out -> In d out ->
  on_date (Day.date d) feed <> [] /\
  summarize (Day.date d, on_date (Day.date d) feed) = Normal d.
Proof.
  destruct (buildDaily_groups feed) as (m & Hg & ->).
  destruct (mapM summarize (sort by_date m)) as [days | ] eqn:Hdays; [ | discriminate].
  cbn [bind]. intros <-%Normal_eq Hd. apply In_firstn in Hd.
  apply mapM_Forall2 in Hdays.
  destruct (Forall2_In_r _ _ _ _ Hdays Hd) as ([k g] & Hin & Hsum).
  eapply Permutation_in in Hin; [ | apply sort_perm].
  destruct (grouped_entry _ _ _ _ Hg Hin) as [-> Hne].
  rewrite (summarize_date _ _ Hsum). cbn [fst]. auto.
Qed.

Lemma buildDaily_length (feed : list Item.t) (out : list Day.t) :
  buildDaily feed = Normal out -> (List.length out <= 5)%nat.
Proof.
  destruct (buildDaily_groups feed) as (m & _ & ->).
  destruct (mapM summarize (sort by_date m)); [ | discriminate].
  intros <-%Normal_eq. apply firstn_le_length.
Qed.

(** ** C1 *)

(** C1. For every feed of samples, [buildDaily] returns a list of at most
    five entries whose dates are strictly increasing in calendar order: one
    entry per date, each date being the date of a sample of the feed. *)
Theorem buildDaily_at_most_five_increasing (feed : list Item.t) :
  Forall (fun i => is_sample i = true) feed ->
  exists out,
    buildDaily feed = Normal out /\
    (List.length out <= 5)%nat /\
    NoDup (map Day.date out) /\
    StronglySorted earlier (map Day.date out) /\
    (forall d, In d out -> exists i, In i feed /\ date_of i = Day.date d).
Proof.
  intros Hs.
  destruct (buildDaily_returns feed Hs) as (m & days & Hg & Hdays & Hrun).
  exists (firstn 5 days). split; [exact Hrun | ].
  pose proof (summaries_dates _ _ Hdays) as Hdates.
  assert (NoDup (map fst (sort by_date m))) as Hnd.
  { eapply Permutation_NoDup; [ | apply Hg].
    apply Permutation_map. symmetry. apply sort_perm. }
  assert (Forall key_ok (sort by_date m)) as Hok.
  { eapply Permutation_Forall; [symmetry; apply sort_perm | ].
    eapply grouped_keys_ok; eassumption. }
  split; [apply firstn_le_length | ].
  rewrite <- firstn_map, Hdates.
  split; [apply NoDup_firstn; exact Hnd | ].
  split.
  - apply StronglySorted_firstn. apply strictly_sorted; [exact Hok | exact Hnd | ].
    apply (sort_sorted by_date key_value key_ok by_date_key).
    eapply grouped_keys_ok; eassumption.
  - intros d Hd. destruct (buildDaily_entry _ _ _ Hrun Hd) as [Hne _].
    destruct (on_date (Day.date d) feed) as [ | i rest] eqn:E; [congruence | ].
    assert (In i (on_date (Day.date d) feed)) as Hi by (rewrite E; left; reflexivity).
    apply on_date_In in Hi. exists i. exact Hi.
Qed.

(** ** C2 *)

Lemma min2_Fin (a b : Q) : min2 (Fin a) (Fin b) = if Qlt_bool b a then Fin b else Fin a.
Proof. reflexivity. Qed.

Lemma max2_Fin (a b : Q) : max2 (Fin a) (Fin b) = if Qlt_bool a b then Fin b else Fin a.
Proof. reflexivity. Qed.

Lemma fold_min2 (l : list Q) (a : Q) :
  exists m, fold_left min2 (map Fin l) (Fin a) = Fin m /\ is_minimum m (a :: l).
Proof.
  revert a. induction l as [ | b l IH]; intros a; cbn [map fold_left].
  - exists a. split; [reflexivity | split; [left; reflexivity | ]].
    intros x [<- | []]. apply Qle_refl.
  - rewrite min2_Fin. destruct (Qlt_bool b a) eqn:E.
    + apply Qlt_bool_iff in E. destruct (IH b) as (m & -> & Hin & Hle).
      exists m. split; [reflexivity | split; [right; exact Hin | ]].
      intros x [<- | Hx]; [ | auto].
      apply Qle_trans with b; [apply Hle; left; reflexivity | apply Qlt_le_weak; exact E].
    + assert (a <= b)%Q as Hab.
      { apply Qnot_lt_le. intros H. apply Qlt_bool_iff in H. congruence. }
      destruct (IH a) as (m & -> & Hin & Hle).
      exists m. split; [reflexivity | split].
      * destruct Hin as [<- | Hin]; [left; reflexivity | right; right; exact Hin].
      * intros x [<- | [<- | Hx]].
        -- apply Hle; left; reflexivity.
        -- apply Qle_trans with a; [apply Hle; left; reflexivity | exact Hab].
        -- apply Hle; right; exact Hx.
Qed.

Lemma fold_max2 (l : list Q) (a : Q) :
  exists m, fold_left max2 (map Fin l) (Fin a) = Fin m /\ is_maximum m (a :: l).
Proof.
  revert a. induction l as [ | b l IH]; intros a; cbn [map fold_left].
  - exists a. split; [reflexivity | split; [left; reflexivity | ]].
    intros x [<- | []]. apply Qle_refl.
  - rewrite max2_Fin. destruct (Qlt_bool a b) eqn:E.
    + apply Qlt_bool_iff in E. destruct (IH b) as (m & -> & Hin & Hle).
      exists m. split; [reflexivity | split; [right; exact Hin | ]].
      intros x [<- | Hx]; [ | auto].
      apply Qle_trans with b; [apply Qlt_le_weak; exact E | apply Hle; left; reflexivity].
    + assert (b <= a)%Q as Hab.
      { apply Qnot_lt_le. intros H. apply Qlt_bool_iff in H. congruence. }
      destruct (IH a) as (m & -> & Hin & Hle).
      exists m. split; [reflexivity | split].
      * destruct Hin as [<- | Hin]; [left; reflexivity | right; right; exact Hin].
      * intros x [<- | [<- | Hx]].
        -- apply Hle; left; reflexivity.
        -- apply Qle_trans with a; [exact Hab | apply Hle; left; reflexivity].
        -- apply Hle; right; exact Hx.
Qed.

(** [Math.min] of a non-empty list of finite numbers is its least element. *)
Lemma Math_min_least (l : list Q) :
  l <> [] -> exists m, Math_min (map Fin l) = Fin m /\ is_minimum m l.
Proof.
  destruct l as [ | a l]; [congruence | intros _].
  unfold Math_min. cbn [map fold_left]. apply fold_min2.
Qed.

Lemma Math_max_greatest (l : list Q) :
  l <> [] -> exists m, Math_max (map Fin l) = Fin m /\ is_maximum m l.
Proof.
  destruct l as [ | a l]; [congruence | intros _].
  unfold Math_max. cbn [map fold_left]. apply fold_max2.
Qed.

(** [Math.round] of a finite number is an integer nearest to it. *)
Lemma Math_round_nearest (q : Q) :
  exists z, Math_round (Fin q) = of_Z z /\ nearest_integer z q /\
            z = Qfloor (q + (1 # 2)).
Proof.
  exists (Qfloor (q + (1 # 2))). split; [reflexivity | split; [ | reflexivity]].
  unfold nearest_integer. apply Qabs_Qle_condition.
  pose proof (Qfloor_le (q + (1 # 2))) as Hlo.
  pose proof (Qlt_floor (q + (1 # 2))) as Hhi.
  rewrite inject_Z_plus in Hhi.
  change (inject_Z 1) with 1%Q in Hhi.
  split; lra.
Qed.

Lemma summarize_min_max (k : string) (g : list Item.t) (d : Day.t) :
  summarize (k, g) = Normal d ->
  Day.min d = Math_round (Math_min (map Fin (temps_min g))) /\
  Day.max d = Math_round (Math_max (map Fin (temps_max g))).
Proof.
  unfold summarize, temps_min, temps_max. rewrite !map_map.
  destruct g as [ | first rest]; [discriminate | ].
  destruct (Item.weather _); [discriminate | ].
  intros [= <-]. split; reflexivity.
Qed.

(** * The controller *)

Section ControllerFacts.
Variable API_KEY : option string.

Lemma run_snoc (evs : list Event) (ev : Event) :
  run API_KEY (evs ++ [ev]) = step API_KEY (run API_KEY evs) ev.
Proof. unfold run. rewrite fold_left_app. reflexivity. Qed.

(** What [fetchWeather] does to the state cells other than [loading]
    and [errorMsg]: nothing. *)
Lemma fetchWeather_frame (a : string) (u : Units) (c : Config) :
  let c' := fetchWeather API_KEY a u c in
  query (state c') = query (state c) /\
  units (state c') = units (state c) /\
  now (state c') = now (state c) /\
  days (state c') = days (state c) /\
  lastCity (state c') = lastCity (state c).
Proof.
  unfold fetchWeather.
  destruct (key_configured API_KEY); cbn [negb]; [ | cbn; tauto].
  destruct (truthy a); cbn; tauto.
Qed.

(** ** C4 *)

Lemma step_refreshed_together (c : Config) (ev : Event) :
  refreshed_together c ev (step API_KEY c ev).
Proof.
  destruct ev as [text | | | k w f]; cbn [refreshed_together step].
  - cbn. tauto.
  - unfold onSubmit. pose proof (fetchWeather_frame (trim (query (state c)))
                                   (units (state c)) c). cbn zeta in *. tauto.
  - unfold onToggle. cbn zeta.
    destruct (truthy _); [ | cbn; tauto].
    match goal with
    | |- context [fetchWeather _ ?a ?u ?c0] =>
        pose proof (fetchWeather_frame a u c0) as H
    end.
    cbn in H. cbn. tauto.
  - destruct (nth_error (pending c) k) as [call | ]; [ | tauto].
    cbn [state]. unfold resume, on_failure.
    destruct w as [w_data | ], f as [f_list | ]; try (cbn; tauto).
    destruct (buildDaily f_list); cbn; tauto.
Qed.

Lemma paired_step (evs : list Event) (c : Config) (ev : Event) :
  paired evs (state c) -> paired (evs ++ [ev]) (state (step API_KEY c ev)).
Proof.
  intros Hp. pose proof (step_refreshed_together c ev) as Hr.
  assert (paired (evs ++ [ev]) (state c)) as Hp'.
  { destruct Hp as [Hp | (k & w & f & Hin & Hp)]; [left; exact Hp | right].
    exists k, w, f. split; [apply in_or_app; left; exact Hin | exact Hp]. }
  assert (now (state (step API_KEY c ev)) = now (state c) /\
          days (state (step API_KEY c ev)) = days (state c) ->
          paired (evs ++ [ev]) (state (step API_KEY c ev))) as Hsame.
  { intros [En Ed]. unfold paired. rewrite En, Ed. exact Hp'. }
  destruct ev as [text | | | k w f]; cbn [refreshed_together] in Hr; auto.
  destruct (nth_error (pending c) k); [ | auto].
  destruct w as [w_data | ], f as [f_list | ]; try (left; exact Hr).
  destruct (buildDaily f_list) as [summary | ] eqn:Eb; [ | left; exact Hr].
  right. exists k, w_data, f_list. destruct Hr as [-> ->].
  split; [apply in_or_app; right; left; reflexivity | auto].
Qed.

(** C4. In every configuration the component reaches, [now] and [days]
    are a pair: both cleared ([now] null and [days] empty), or both set
    from the two answers of one search; and every event treats them
    together: a search that settles well sets both, one that fails
    clears both, and nothing else touches either. *)
Theorem now_and_days_paired (evs : list Event) :
  paired evs (state (run API_KEY evs)) /\
  forall ev, refreshed_together (run API_KEY evs) ev (step API_KEY (run API_KEY evs) ev).
Proof.
  split; [ | intros ev; apply step_refreshed_together].
  induction evs as [ | ev evs IH] using rev_ind.
  - left. split; reflexivity.
  - rewrite run_snoc. apply paired_step. exact IH.
Qed.

(** ** C5 *)

Lemma fetchWeather_no_key (a : string) (u : Units) (c : Config) :
  key_configured API_KEY = false ->
  fetchWeather API_KEY a u c =
  mkConfig (setErrorMsg missing_key_message (state c)) (requests c) (pending c).
Proof. unfold fetchWeather. intros ->. reflexivity. Qed.

Lemma step_no_key (c : Config) (ev : Event) :
  key_configured API_KEY = false ->
  requests c = [] /\ pending c = [] /\ loading (state c) = false ->
  let c' := step API_KEY c ev in
  requests c' = [] /\ pending c' = [] /\ loading (state c') = false.
Proof.
  intros Hk (Hr & Hp & Hl).
  destruct ev as [text | | | k w f]; cbn [step]; cbn zeta.
  - cbn. auto.
  - unfold onSubmit. rewrite fetchWeather_no_key by exact Hk. cbn. auto.
  - unfold onToggle. cbn zeta. destruct (truthy _); [ | cbn; auto].
    rewrite fetchWeather_no_key by exact Hk. cbn. auto.
  - rewrite Hp. destruct k; cbn; auto.
Qed.

Lemma run_no_key (evs : list Event) :
  key_configured API_KEY = false ->
  requests (run API_KEY evs) = [] /\ pending (run API_KEY evs) = [] /\
  loading (state (run API_KEY evs)) = false.
Proof.
  intros Hk. induction evs as [ | ev evs IH] using rev_ind.
  - cbn. auto.
  - rewrite run_snoc. apply step_no_key; assumption.
Qed.

(** C5. Without a configured API key, every submit, in whatever
    configuration and whatever the query, ends with the missing-key
    message as the error message, which the error banner shows, sends no
    request and starts no call; the other cells keep their values.  No
    request is ever sent in such a session and [loading] is never set. *)
Theorem submit_without_key :
  key_configured API_KEY = false ->
  (forall c : Config,
      let c' := step API_KEY c Submit in
      errorMsg (state c') = missing_key_message /\
      error_shown (state c') = true /\
      requests c' = requests c /\
      pending c' = pending c /\
      state c' = setErrorMsg missing_key_message (state c)) /\
  (forall evs : list Event,
      let c' := step API_KEY (run API_KEY evs) Submit in
      requests c' = [] /\ pending c' = [] /\ loading (state c') = false).
Proof.
  intros Hk. split.
  - intros c. cbn [step]. unfold onSubmit.
    rewrite fetchWeather_no_key by exact Hk. cbn. auto.
  - intros evs. cbn zeta. rewrite <- run_snoc. apply run_no_key. exact Hk.
Qed.

(** ** C6 *)

Lemma resume_failed (call : Fetch) (w : option Current.t) (f : option (list Item.t))
  (s : State) :
  failed w f ->
  resume call w f s =
  mkState (query s) (units s) None [] false not_found_message (lastCity s).
Proof.
  unfold resume, on_failure.
  intros [-> | [-> | (f_list & -> & Hthrow)]].
  - reflexivity.
  - destruct w; reflexivity.
  - rewrite Hthrow. destruct w; reflexivity.
Qed.

(** C6. When a search fails, whatever was displayed before, [now] becomes
    null, [days] becomes empty and the error message becomes the
    not-found message, which is not empty; [loading] ends. *)
Theorem failed_fetch_clears (c : Config) (k : nat) (call : Fetch)
  (w : option Current.t) (f : option (list Item.t)) :
  nth_error (pending c) k = Some call ->
  failed w f ->
  let s' := state (step API_KEY c (Settle k w f)) in
  now s' = None /\ days s' = [] /\
  errorMsg s' = not_found_message /\ errorMsg s' <> EmptyString /\
  error_shown s' = true /\ loading s' = false.
Proof.
  intros Hk Hf. cbn [step]. rewrite Hk. cbn [state].
  rewrite (resume_failed _ _ _ _ Hf). cbn.
  repeat split; discriminate.
Qed.

(** ** C7 *)

Lemma In_remove_nth {A : Type} (k : nat) (l : list A) (x : A) :
  In x (remove_nth k l) -> In x l.
Proof.
  revert k. induction l as [ | y l IH]; intros [ | k]; cbn [remove_nth In]; auto.
  intros [-> | H]; eauto.
Qed.

Lemma fetchWeather_tracks (a : string) (u : Units) (c : Config) (found : option string) :
  tracks API_KEY c found -> tracks API_KEY (fetchWeather API_KEY a u c) found.
Proof.
  unfold fetchWeather.
  destruct (key_configured API_KEY) eqn:Ek; cbn [negb]; intros (Hl & Hf & Hp).
  - destruct (truthy a) eqn:Ea; cbn [negb]; [ | split; auto].
    split; [exact Hl | split; [exact Hf | ]].
    cbn [pending]. intros call [Hin | [<- | []]]%in_app_or; auto.
  - split; [exact Hl | split; [exact Hf | exact Hp]].
Qed.

Lemma step_tracks (c : Config) (ev : Event) (found : option string) :
  tracks API_KEY c found ->
  tracks API_KEY (step API_KEY c ev)
    (match completes c ev with Some a => Some a | None => found end).
Proof.
  intros Ht. destruct ev as [text | | | k w f]; cbn [step completes].
  - exact Ht.
  - apply fetchWeather_tracks. exact Ht.
  - unfold onToggle. cbn zeta.
    assert (tracks API_KEY (mkConfig (setUnits (toggled (units (state c))) (state c))
                      (requests c) (pending c)) found) as Ht' by exact Ht.
    destruct (truthy _); [apply fetchWeather_tracks | ]; exact Ht'.
  - destruct Ht as (Hl & Hf & Hp).
    destruct (nth_error (pending c) k) as [call | ] eqn:Ek.
    + assert (forall call', In call' (remove_nth k (pending c)) ->
                truthy (city call') = true /\ key_configured API_KEY = true) as Hp'.
      { intros call' Hin. apply Hp. eapply In_remove_nth; eassumption. }
      apply nth_error_In in Ek. apply Hp in Ek.
      unfold resume, on_failure.
      destruct w as [w_data | ], f as [f_list | ];
        try (split; [exact Hl | split; [exact Hf | exact Hp']]).
      destruct (buildDaily f_list) as [summary | ];
        [ | split; [exact Hl | split; [exact Hf | exact Hp']]].
      split; [reflexivity | split; [ | exact Hp']].
      intros a [= <-]. exact Ek.
    + destruct w, f; split; auto.
Qed.

Lemma run_tracks_from (evs : list Event) (c : Config) (found : option string) :
  tracks API_KEY c found ->
  tracks API_KEY (fold_left (step API_KEY) evs c) (last_success API_KEY c evs found).
Proof.
  revert c found. induction evs as [ | ev evs IH]; intros c found Ht;
    cbn [fold_left last_success].
  - exact Ht.
  - apply IH. apply step_tracks. exact Ht.
Qed.

Lemma run_tracks (evs : list Event) :
  tracks API_KEY (run API_KEY evs) (last_success API_KEY initial evs None).
Proof.
  apply run_tracks_from. split; [reflexivity | split]; [discriminate | intros ? []].
Qed.

(** What the toggle sends when [lastCity] is what [found] says. *)
Lemma toggle_requests (c : Config) (found : option string) :
  tracks API_KEY c found ->
  let c' := step API_KEY c ToggleUnits in
  let u' := toggled (units (state c)) in
  units (state c') = u' /\
  match found with
  | Some a =>
      requests c' = requests c ++ paired_requests (key_text API_KEY) a u' /\
      pending c' = pending c ++ [mkFetch a u']
  | None => requests c' = requests c /\ pending c' = pending c
  end.
Proof.
  intros (Hl & Hf & _). cbn [step]. unfold onToggle. cbn zeta. cbn [lastCity setUnits].
  rewrite Hl. destruct found as [a | ].
  - destruct (Hf a eq_refl) as [Ha Hk]. rewrite Ha.
    unfold fetchWeather. rewrite Hk, Ha. cbn. auto.
  - cbn. auto.
Qed.

Lemma failed_completes (c : Config) (k : nat) (w : option Current.t)
  (f : option (list Item.t)) :
  failed w f -> completes c (Settle k w f) = None.
Proof.
  intros [-> | [-> | (f_list & -> & Hthrow)]]; cbn [completes].
  - reflexivity.
  - destruct w; reflexivity.
  - rewrite Hthrow. destruct w; [destruct (nth_error _ _) | ]; reflexivity.
Qed.

(** ** C8 *)

Lemma trimStart_blank (s : string) : whitespace_only s = true -> trimStart s = EmptyString.
Proof.
  unfold whitespace_only.
  induction s as [ | c s IH]; cbn [list_ascii_of_string forallb trimStart].
  - reflexivity.
  - intros [-> Hs]%andb_true_iff. auto.
Qed.

Lemma trim_blank (s : string) : whitespace_only s = true -> trim s = EmptyString.
Proof. intros H. unfold trim. rewrite (trimStart_blank s H). reflexivity. Qed.

Lemma trimEnd_empty (s : string) : trimEnd s = EmptyString -> whitespace_only s = true.
Proof.
  unfold whitespace_only.
  induction s as [ | c s IH]; cbn [list_ascii_of_string forallb trimEnd].
  - reflexivity.
  - destruct (trimEnd s); [ | discriminate].
    destruct (is_white c); [intros _; apply IH; reflexivity | discriminate].
Qed.

(** The texts whose [trim] is empty are the empty one and those made of
    white space. *)
Lemma trim_empty_iff (s : string) : trim s = EmptyString <-> whitespace_only s = true.
Proof.
  split; [ | apply trim_blank].
  unfold trim. intros H. apply trimEnd_empty in H. revert H.
  unfold whitespace_only.
  induction s as [ | c s IH]; cbn [list_ascii_of_string forallb trimStart].
  - reflexivity.
  - destruct (is_white c) eqn:Ec; [exact IH | ].
    cbn [list_ascii_of_string forallb]. rewrite Ec. discriminate.
Qed.

(** C8, as the code has it.  A submit whose query is empty or made of
    white space sends no request and starts no call.  With a configured
    key it changes nothing at all; without one it sets the error message
    to the missing-key message and changes nothing else. *)
Theorem submit_blank_query (c : Config) :
  whitespace_only (query (state c)) = true ->
  let c' := step API_KEY c Submit in
  requests c' = requests c /\ pending c' = pending c /\
  (key_configured API_KEY = true -> c' = c) /\
  (key_configured API_KEY = false ->
   state c' = setErrorMsg missing_key_message (state c)).
Proof.
  intros Hq. cbn [step]. unfold onSubmit, fetchWeather.
  rewrite (trim_blank _ Hq).
  destruct (key_configured API_KEY); cbn; repeat split; auto; discriminate.
Qed.

End ControllerFacts.

(** * Further properties of [buildDaily] *)

Lemma distinct_In (l : list string) (x : string) : In x (distinct l) <-> In x l.
Proof.
  induction l as [ | a l IH]; cbn [distinct In]; [tauto | ].
  rewrite filter_In, IH, negb_true_iff, String.eqb_neq.
  destruct (string_dec a x) as [-> | Hne]; [tauto | ].
  split; [tauto | ]. intros [H | H]; [congruence | ]. right. split; congruence.
Qed.

Lemma distinct_NoDup (l : list string) : NoDup (distinct l).
Proof.
  induction l as [ | a l IH]; cbn [distinct]; constructor.
  - rewrite filter_In, String.eqb_refl. cbn. intros [_ H]. discriminate.
  - apply NoDup_filter. exact IH.
Qed.

Lemma distinct_snoc (l : list string) (x : string) :
  distinct (l ++ [x]) = if in_dec string_dec x l then distinct l else distinct l ++ [x].
Proof.
  induction l as [ | a l IH]; cbn [app distinct].
  - destruct (in_dec string_dec x []) as [[] | _]. reflexivity.
  - rewrite IH.
    destruct (in_dec string_dec x l) as [Hin | Hnin];
      destruct (in_dec string_dec x (a :: l)) as [Hin' | Hnin']; cbn [In] in *.
    + reflexivity.
    + tauto.
    + destruct Hin' as [-> | ?]; [ | tauto].
      rewrite filter_app. cbn [filter]. rewrite String.eqb_refl. cbn [negb].
      rewrite app_nil_r. reflexivity.
    + rewrite filter_app. cbn [filter].
      destruct (String.eqb_spec x a) as [-> | _]; [ | reflexivity].
      exfalso. apply Hnin'. left. reflexivity.
Qed.

Lemma Map_has_keys {V : Type} (m : JsMap V) (k : string) :
  Map_has m k = true <-> In k (map fst m).
Proof.
  unfold Map_has. induction m as [ | [k0 v0] m IH]; cbn [Map_get map fst In].
  - split; [discriminate | tauto].
  - destruct (String.eqb_spec k0 k) as [-> | Hne]; [tauto | ].
    rewrite IH. tauto.
Qed.

(** The keys of the map are the dates of the samples seen, in the order
    of their first occurrence. *)
Lemma forEach_keys (l seen : list Item.t) (m m' : JsMap (list Item.t)) :
  map fst m = distinct (map date_of seen) ->
  forEachM group_item l m = Normal m' ->
  map fst m' = distinct (map date_of (seen ++ l)).
Proof.
  revert seen m. induction l as [ | item l IH]; intros seen m Hk; cbn [forEachM].
  - intros [= <-]. rewrite app_nil_r. exact Hk.
  - destruct (group_item_spec m item) as (m1 & -> & Hkeys & _). cbn [bind].
    intros Hrun.
    replace (seen ++ item :: l) with ((seen ++ [item]) ++ l)
      by (rewrite <- app_assoc; reflexivity).
    apply (IH _ m1); [ | exact Hrun].
    rewrite Hkeys, map_app. cbn [map]. rewrite distinct_snoc, <- Hk.
    destruct (Map_has m (date_of item)) eqn:Eh;
      destruct (in_dec string_dec (date_of item) (map date_of seen)) as [Hin | Hnin];
      try reflexivity;
      exfalso.
    + apply (proj1 (Map_has_keys _ _)) in Eh. rewrite Hk in Eh.
      apply (proj1 (distinct_In _ _)) in Eh. tauto.
    + apply (proj2 (distinct_In _ _)) in Hin. rewrite <- Hk in Hin.
      apply (proj2 (Map_has_keys _ _)) in Hin.
      congruence.
Qed.

(** X1. The first loop of [buildDaily] never throws; it leaves one key per
    distinct date, in the order in which the dates first occur in the feed,
    and each key holds exactly the samples of that date, in the order of
    the feed. *)
Theorem grouping_first_seen (feed : list Item.t) :
  exists m,
    forEachM group_item feed [] = Normal m /\
    map fst m = distinct (map date_of feed) /\
    forall k, Map_get m k = match on_date k feed with
                            | [] => None
                            | g => Some g
                            end.
Proof.
  destruct (forEach_grouped feed [] [] grouped_nil) as (m & Hrun & Hg).
  exists m. split; [exact Hrun | split].
  - apply (forEach_keys feed [] [] m); [reflexivity | exact Hrun].
  - apply Hg.
Qed.

Lemma mapM_Throw {A B : Type} (f : A -> completion B) (l : list A) :
  mapM f l = Throw <-> exists x, In x l /\ f x = Throw.
Proof.
  induction l as [ | a l IH]; cbn [mapM In].
  - split; [discriminate | intros (x & [] & _)].
  - destruct (f a) as [y | ] eqn:Ea; cbn [bind].
    + destruct (mapM f l) as [ys | ]; cbn [bind].
      * split; [discriminate | ].
        intros (x & [<- | Hx] & Hthrow); [congruence | ].
        destruct IH as [_ IH]. discriminate IH. eauto.
      * split; [intros _ | reflexivity].
        destruct IH as [IH _]. destruct (IH eq_refl) as (x & Hx & Hthrow). eauto.
    + split; [intros _; eauto | reflexivity].
Qed.

Lemma summarize_Throw (k : string) (g : list Item.t) :
  g <> [] ->
  summarize (k, g) = Throw <->
  exists best, representative g = Some best /\ Item.weather best = [].
Proof.
  intros Hne. unfold summarize, representative.
  destruct g as [ | first rest]; [congruence | ].
  destruct (Item.weather (fold_left closer (first :: rest) first)) eqn:Ew.
  - split; [intros _; eexists; split; [reflexivity | exact Ew] | reflexivity].
  - split; [discriminate | ]. intros (best & <-%Some_eq & H). congruence.
Qed.

(** X2. [buildDaily] throws exactly when, for the date of some sample of
    the feed, the sample the noon loop ends on has an empty [weather]
    array; the date need not be among the five that are kept. *)
Theorem buildDaily_throws_iff (feed : list Item.t) :
  buildDaily feed = Throw <->
  exists i best,
    In i feed /\
    representative (on_date (date_of i) feed) = Some best /\
    Item.weather best = [].
Proof.
  destruct (buildDaily_groups feed) as (m & Hg & ->).
  assert (mapM summarize (sort by_date m) = Throw <->
          exists e, In e m /\ summarize e = Throw) as Hm.
  { rewrite mapM_Throw. split; intros (e & He & Hthrow); exists e; split; auto.
    - eapply Permutation_in; [apply sort_perm | exact He].
    - eapply Permutation_in; [symmetry; apply sort_perm | exact He]. }
  split.
  - intros Hrun.
    destruct (mapM summarize (sort by_date m)) eqn:Em; [discriminate | ].
    destruct Hm as [Hm _]. destruct (Hm eq_refl) as ([k g] & He & Hthrow).
    destruct (grouped_entry _ _ _ _ Hg He) as [-> Hne].
    apply (summarize_Throw _ _ Hne) in Hthrow. destruct Hthrow as (best & Hb & Hw).
    destruct (on_date k feed) as [ | i rest] eqn:E; [congruence | ].
    assert (In i (on_date k feed)) as Hi by (rewrite E; left; reflexivity).
    apply on_date_In in Hi. destruct Hi as [Hi <-].
    exists i, best. rewrite E. auto.
  - intros (i & best & Hi & Hb & Hw).
    pose proof (grouped_key _ _ _ Hg Hi) as Hk.
    apply in_map_iff in Hk. destruct Hk as ([k g] & Ek & He). cbn [fst] in Ek. subst k.
    destruct (grouped_entry _ _ _ _ Hg He) as [-> Hne].
    destruct Hm as [_ Hm]. rewrite Hm; [reflexivity | ].
    exists (date_of i, on_date (date_of i) feed). split; [exact He | ].
    apply summarize_Throw; [exact Hne | eauto].
Qed.

Lemma Forall2_keys {A B C : Type} (P : A * B -> C -> Prop) (g : A -> B)
  (entries : list (A * B)) (r : list C) :
  Forall2 P entries r ->
  (forall e, In e entries -> snd e = g (fst e)) ->
  Forall2 (fun k y => P (k, g k) y) (map fst entries) r.
Proof.
  induction 1 as [ | [k v] y entries r Hp _ IH]; intros He; cbn [map]; constructor.
  - pose proof (He (k, v) (or_introl eq_refl)) as E. cbn [fst snd] in E.
    subst v. exact Hp.
  - apply IH. intros e Hin. apply He. right. exact Hin.
Qed.

(** A run of [buildDaily] on samples, seen from the dates: they are sorted,
    they are the distinct dates of the feed, and each is summarized from
    the samples of its date. *)
Lemma buildDaily_sorted_run (feed : list Item.t) :
  Forall (fun i => is_sample i = true) feed ->
  exists dates days,
    StronglySorted earlier dates /\
    Permutation dates (distinct (map date_of feed)) /\
    Forall2 (fun k d => summarize (k, on_date k feed) = Normal d) dates days /\
    buildDaily feed = Normal (firstn 5 days).
Proof.
  intros Hs.
  destruct (forEach_grouped feed [] [] grouped_nil) as (m & Hrun & Hg).
  cbn [app] in Hg.
  pose proof (forEach_keys feed [] [] m eq_refl Hrun) as Hkeys. cbn [app] in Hkeys.
  pose proof (grouped_keys_ok _ _ Hs Hg) as Hok.
  destruct (mapM_total summarize (sort by_date m)) as [days Hdays].
  { eapply Permutation_Forall; [symmetry; apply sort_perm | ].
    apply Forall_forall. intros [k g] Hin.
    destruct (grouped_entry _ _ _ _ Hg Hin) as [-> Hne].
    apply summarize_total; [exact Hne | ].
    apply Forall_forall. intros i Hi. apply on_date_In in Hi.
    rewrite Forall_forall in Hs. apply Hs. tauto. }
  exists (map fst (sort by_date m)), days.
  assert (Permutation (map fst (sort by_date m)) (map fst m)) as Hperm
    by (apply Permutation_map, sort_perm).
  split; [ | split; [ | split]].
  - apply strictly_sorted.
    + eapply Permutation_Forall; [symmetry; apply sort_perm | exact Hok].
    + eapply Permutation_NoDup; [symmetry; exact Hperm | apply Hg].
    + apply (sort_sorted by_date key_value key_ok by_date_key). exact Hok.
  - rewrite <- Hkeys. exact Hperm.
  - apply mapM_Forall2 in Hdays.
    apply (Forall2_keys (fun e d => summarize e = Normal d) (fun k => on_date k feed));
      [exact Hdays | ].
    intros [k g] Hin. eapply Permutation_in in Hin; [ | apply sort_perm].
    cbn [fst snd]. apply (grouped_entry _ _ _ _ Hg Hin).
  - unfold buildDaily. rewrite Hrun. cbn [bind]. rewrite Hdays. reflexivity.
Qed.

Lemma summaries_dates_keys (feed : list Item.t) (dates : list string) (days : list Day.t) :
  Forall2 (fun k d => summarize (k, on_date k feed) = Normal d) dates days ->
  map Day.date days = dates.
Proof.
  induction 1 as [ | k d dates days Hk _ IH]; cbn [map]; [reflexivity | ].
  rewrite IH, (summarize_date _ _ Hk). reflexivity.
Qed.

Lemma StronglySorted_app_cross {A : Type} (R : A -> A -> Prop) (l1 l2 : list A) :
  StronglySorted R (l1 ++ l2) -> forall x y, In x l1 -> In y l2 -> R x y.
Proof.
  induction l1 as [ | a l1 IH]; cbn [app]; intros Hs x y Hx Hy; [destruct Hx | ].
  inversion Hs as [ | ? ? Hs' Ha]; subst.
  destruct Hx as [<- | Hx]; [ | eauto].
  rewrite Forall_forall in Ha. apply Ha. apply in_or_app. right. exact Hy.
Qed.

(** X3. On a feed of samples the result has as many entries as the feed has
    distinct dates, up to five, and the dates it keeps are the earliest:
    the date of every sample is in the result, or the result has five
    entries that are all earlier than it. *)
Theorem buildDaily_keeps_earliest (feed : list Item.t) :
  Forall (fun i => is_sample i = true) feed ->
  exists out,
    buildDaily feed = Normal out /\
    List.length out = Nat.min 5 (List.length (distinct (map date_of feed))) /\
    forall i, In i feed ->
      In (date_of i) (map Day.date out) \/
      (List.length out = 5%nat /\
       forall d, In d out -> earlier (Day.date d) (date_of i)).
Proof.
  intros Hs.
  destruct (buildDaily_sorted_run feed Hs) as (dates & days & Hsorted & Hperm & Hsum & Hrun).
  exists (firstn 5 days). split; [exact Hrun | ].
  pose proof (summaries_dates_keys _ _ _ Hsum) as Hdates.
  assert (List.length days = List.length dates) as Hlen
    by (rewrite <- Hdates; symmetry; apply length_map).
  assert (List.length dates = List.length (distinct (map date_of feed))) as Hlen'
    by (apply Permutation_length; exact Hperm).
  split; [rewrite length_firstn; lia | ].
  intros i Hi.
  assert (In (date_of i) dates) as Hin.
  { eapply Permutation_in; [symmetry; exact Hperm | ].
    apply distinct_In. apply in_map. exact Hi. }
  rewrite <- firstn_map, Hdates.
  rewrite <- (firstn_skipn 5 dates) in Hin, Hsorted.
  apply in_app_or in Hin. destruct Hin as [Hin | Hin]; [left; exact Hin | right].
  split.
  - assert (0 < List.length (skipn 5 dates))%nat as Hpos
      by (destruct (skipn 5 dates); [destruct Hin | cbn; lia]).
    rewrite length_skipn in Hpos. rewrite length_firstn. lia.
  - intros d Hd.
    apply (StronglySorted_app_cross _ _ _ Hsorted); [ | exact Hin].
    rewrite <- Hdates, firstn_map. apply in_map. exact Hd.
Qed.

Lemma calendar_lt_irrefl (a : Z * Z * Z) : ~ calendar_lt a a.
Proof. destruct a as [[y m] d]. unfold calendar_lt. lia. Qed.

Lemma earlier_asym (a b : string) : earlier a b -> earlier b a -> False.
Proof.
  unfold earlier. destruct (parse_date a) as [ta | ]; [ | tauto].
  destruct (parse_date b) as [tb | ]; [ | tauto].
  intros H1 H2. exact (calendar_lt_irrefl _ (calendar_lt_trans _ _ _ H1 H2)).
Qed.

(** Two lists in strict order with the same elements are the same list. *)
Lemma sorted_unique (l l' : list string) :
  StronglySorted earlier l -> StronglySorted earlier l' ->
  (forall x, In x l <-> In x l') -> l = l'.
Proof.
  intros Hs. revert l'. induction Hs as [ | a l Hs IH Ha]; intros l' Hs' Hin.
  - destruct l' as [ | b l']; [reflexivity | ].
    destruct (proj2 (Hin b) (or_introl eq_refl)).
  - destruct Hs' as [ | b l' Hs' Hb].
    + destruct (proj1 (Hin a) (or_introl eq_refl)).
    + rewrite Forall_forall in Ha, Hb.
      assert (a = b) as ->.
      { destruct (proj1 (Hin a) (or_introl eq_refl)) as [E | Hal']; [congruence | ].
        destruct (proj2 (Hin b) (or_introl eq_refl)) as [E | Hbl]; [congruence | ].
        destruct (earlier_asym a b); auto. }
      f_equal. apply IH; [exact Hs' | ].
      intros x. split; intros Hx.
      * destruct (proj1 (Hin x) (or_intror Hx)) as [<- | H]; [ | exact H].
        destruct (earlier_asym b b); auto.
      * destruct (proj2 (Hin x) (or_intror Hx)) as [<- | H]; [ | exact H].
        destruct (earlier_asym b b); auto.
Qed.

Lemma Permutation_on_date (k : string) (l l' : list Item.t) :
  Permutation l l' -> Permutation (on_date k l) (on_date k l').
Proof.
  unfold on_date.
  induction 1 as [ | x l l' _ IH | x y l | l l' l'' _ IH1 _ IH2]; cbn [filter].
  - constructor.
  - destruct (String.eqb (date_of x) k); [constructor | ]; exact IH.
  - destruct (String.eqb (date_of x) k), (String.eqb (date_of y) k);
      try reflexivity. apply perm_swap.
  - etransitivity; eassumption.
Qed.

Lemma is_minimum_perm (m m' : Q) (l l' : list Q) :
  Permutation l l' -> is_minimum m l -> is_minimum m' l' -> (m == m')%Q.
Proof.
  intros Hp [Hin Hle] [Hin' Hle'].
  apply Qle_antisym.
  - apply Hle. eapply Permutation_in; [symmetry; exact Hp | exact Hin'].
  - apply Hle'. eapply Permutation_in; [exact Hp | exact Hin].
Qed.

Lemma is_maximum_perm (m m' : Q) (l l' : list Q) :
  Permutation l l' -> is_maximum m l -> is_maximum m' l' -> (m == m')%Q.
Proof.
  intros Hp [Hin Hle] [Hin' Hle'].
  apply Qle_antisym.
  - apply Hle'. eapply Permutation_in; [exact Hp | exact Hin].
  - apply Hle. eapply Permutation_in; [symmetry; exact Hp | exact Hin'].
Qed.

Lemma Math_round_Qeq (a b : Q) : (a == b)%Q -> Math_round (Fin a) = Math_round (Fin b).
Proof. intros E. unfold Math_round. rewrite E. reflexivity. Qed.

(** The figures of a summary do not depend on the order of the samples. *)
Lemma summarize_perm (k : string) (g g' : list Item.t) (d d' : Day.t) :
  Permutation g g' ->
  summarize (k, g) = Normal d -> summarize (k, g') = Normal d' ->
  Day.date d = Day.date d' /\ Day.min d = Day.min d' /\ Day.max d = Day.max d'.
Proof.
  intros Hp Hd Hd'.
  rewrite (summarize_date _ _ Hd), (summarize_date _ _ Hd').
  split; [reflexivity | ].
  destruct (summarize_min_max _ _ _ Hd) as [-> ->].
  destruct (summarize_min_max _ _ _ Hd') as [-> ->].
  assert (g <> []) as Hne by (intros ->; discriminate Hd).
  assert (g' <> []) as Hne' by (intros ->; discriminate Hd').
  destruct (Math_min_least (temps_min g)) as (lo & -> & Hlo);
    [unfold temps_min; destruct g; [congruence | discriminate] | ].
  destruct (Math_min_least (temps_min g')) as (lo' & -> & Hlo');
    [unfold temps_min; destruct g'; [congruence | discriminate] | ].
  destruct (Math_max_greatest (temps_max g)) as (hi & -> & Hhi);
    [unfold temps_max; destruct g; [congruence | discriminate] | ].
  destruct (Math_max_greatest (temps_max g')) as (hi' & -> & Hhi');
    [unfold temps_max; destruct g'; [congruence | discriminate] | ].
  split; apply Math_round_Qeq.
  - eapply is_minimum_perm; [ | exact Hlo | exact Hlo'].
    unfold temps_min. apply Permutation_map. exact Hp.
  - eapply is_maximum_perm; [ | exact Hhi | exact Hhi'].
    unfold temps_max. apply Permutation_map. exact Hp.
Qed.

Lemma Forall2_firstn {A B : Type} (R : A -> B -> Prop) (n : nat) (l : list A) (r : list B) :
  Forall2 R l r -> Forall2 R (firstn n l) (firstn n r).
Proof.
  intros H. revert n. induction H as [ | x y l r Hxy _ IH]; intros [ | n]; cbn [firstn];
    constructor; auto.
Qed.

Lemma Forall2_same_keys {A B C : Type} (P : A -> B -> Prop) (Q : A -> C -> Prop)
  (R : B -> C -> Prop) (ks : list A) (l : list B) (r : list C) :
  (forall k x y, P k x -> Q k y -> R x y) ->
  Forall2 P ks l -> Forall2 Q ks r -> Forall2 R l r.
Proof.
  intros HR HP. revert r. induction HP as [ | k x ks l Hp _ IH]; intros r HQ;
    inversion HQ; subst; constructor; eauto.
Qed.

(** X4. The dates and the rounded minima and maxima of the result do not
    depend on the order of the samples in the feed: two feeds with the
    same samples give results that agree entry by entry on [date], [min]
    and [max]. *)
Theorem buildDaily_feed_order (feed feed' : list Item.t) :
  Permutation feed feed' ->
  Forall (fun i => is_sample i = true) feed ->
  exists out out',
    buildDaily feed = Normal out /\
    buildDaily feed' = Normal out' /\
    Forall2 (fun d d' => Day.date d = Day.date d' /\
                         Day.min d = Day.min d' /\ Day.max d = Day.max d')
      out out'.
Proof.
  intros Hp Hs.
  assert (Forall (fun i => is_sample i = true) feed') as Hs'
    by (eapply Permutation_Forall; eassumption).
  destruct (buildDaily_sorted_run feed Hs) as (dates & days & Hsorted & Hperm & Hsum & Hrun).
  destruct (buildDaily_sorted_run feed' Hs')
    as (dates' & days' & Hsorted' & Hperm' & Hsum' & Hrun').
  assert (dates = dates') as <-.
  { apply sorted_unique; [exact Hsorted | exact Hsorted' | ].
    intros x.
    rewrite (Permutation_in' (eq_refl x) Hperm), (Permutation_in' (eq_refl x) Hperm').
    rewrite !distinct_In.
    apply Permutation_in'; [reflexivity | ]. apply Permutation_map. exact Hp. }
  exists (firstn 5 days), (firstn 5 days').
  split; [exact Hrun | split; [exact Hrun' | ]].
  apply Forall2_firstn.
  eapply Forall2_same_keys; [ | exact Hsum | exact Hsum'].
  intros k d d' Hd Hd'. cbn beta in Hd, Hd'.
  eapply summarize_perm; [ | exact Hd | exact Hd'].
  apply Permutation_on_date. exact Hp.
Qed.

(** X5. When every sample has its [temp_min] at most its [temp_max], every
    entry of the result has its [min] at most its [max]. *)
Theorem buildDaily_min_le_max (feed : list Item.t) :
  Forall (fun i => is_sample i = true) feed ->
  Forall (fun i => (Main.temp_min (Item.main i) <= Main.temp_max (Item.main i))%Q) feed ->
  exists out,
    buildDaily feed = Normal out /\
    forall d, In d out ->
      exists zlo zhi, Day.min d = of_Z zlo /\ Day.max d = of_Z zhi /\ zlo <= zhi.
Proof.
  intros Hs Hle.
  destruct (buildDaily_returns feed Hs) as (m & days & _ & _ & Hrun).
  exists (firstn 5 days). split; [exact Hrun | ].
  intros d Hd.
  destruct (buildDaily_entry _ _ _ Hrun Hd) as [Hne Hsum].
  destruct (summarize_min_max _ _ _ Hsum) as [-> ->].
  set (g := on_date (Day.date d) feed) in *.
  destruct (Math_min_least (temps_min g)) as (lo & -> & Hlo_in & Hlo);
    [unfold temps_min; destruct g; [congruence | discriminate] | ].
  destruct (Math_max_greatest (temps_max g)) as (hi & -> & Hhi_in & Hhi);
    [unfold temps_max; destruct g; [congruence | discriminate] | ].
  exists (Qfloor (lo + (1 # 2))), (Qfloor (hi + (1 # 2))).
  split; [reflexivity | split; [reflexivity | ]].
  apply Qfloor_resp_le.
  destruct g as [ | i rest] eqn:Eg; [congruence | ].
  assert (In i (on_date (Day.date d) feed)) as Hi
    by (fold g; rewrite Eg; left; reflexivity).
  apply on_date_In in Hi. rewrite Forall_forall in Hle.
  pose proof (Hle i (proj1 Hi)) as Hi_le.
  assert (lo <= Main.temp_min (Item.main i))%Q as H1
    by (apply Hlo; left; reflexivity).
  assert (Main.temp_max (Item.main i) <= hi)%Q as H2
    by (apply Hhi; left; reflexivity).
  lra.
Qed.

(** * Further properties of the strings *)

Lemma trimStart_decompose (s : string) :
  exists pre,
    s = (pre ++ trimStart s)%string /\ whitespace_only pre = true /\
    not_white (first_unit (trimStart s)).
Proof.
  induction s as [ | c s (pre & Hs & Hpre & Hfirst)]; cbn [trimStart].
  - exists EmptyString. repeat split.
  - destruct (is_white c) eqn:Ec.
    + exists (String c pre). cbn [String.append]. rewrite <- Hs.
      split; [reflexivity | split; [ | exact Hfirst]].
      unfold whitespace_only in *. cbn [list_ascii_of_string forallb].
      rewrite Ec. exact Hpre.
    + exists EmptyString. repeat split. exact Ec.
Qed.

Lemma trimEnd_decompose (s : string) :
  exists post,
    s = (trimEnd s ++ post)%string /\ whitespace_only post = true /\
    not_white (last_unit (trimEnd s)) /\
    first_unit (trimEnd s) = match trimEnd s with
                             | EmptyString => None
                             | _ => first_unit s
                             end.
Proof.
  induction s as [ | c s (post & Hs & Hpost & Hlast & _)]; cbn [trimEnd].
  - exists EmptyString. repeat split.
  - destruct (trimEnd s) as [ | c' r'] eqn:Et.
    + cbn [String.append] in Hs. subst post.
      destruct (is_white c) eqn:Ec.
      * exists (String c s). cbn [String.append].
        split; [reflexivity | split; [ | split; [exact I | reflexivity]]].
        unfold whitespace_only in *. cbn [list_ascii_of_string forallb].
        rewrite Ec. exact Hpost.
      * exists s. cbn [String.append].
        split; [reflexivity | split; [exact Hpost | split; [exact Ec | reflexivity]]].
    + exists post. cbn [String.append] in *. rewrite <- Hs.
      split; [reflexivity | split; [exact Hpost | split; [ | reflexivity]]].
      cbn [last_unit] in *. destruct (last_unit r'); exact Hlast.
Qed.

(** X6. [trim] removes white space at both ends and nothing else: the text
    is a run of white space, then its [trim], then a run of white space,
    and the [trim] neither starts nor ends with white space. *)
Theorem trim_decompose (s : string) :
  exists pre post,
    s = (pre ++ trim s ++ post)%string /\
    whitespace_only pre = true /\ whitespace_only post = true /\
    not_white (first_unit (trim s)) /\ not_white (last_unit (trim s)).
Proof.
  destruct (trimStart_decompose s) as (pre & Hs & Hpre & Hfirst).
  destruct (trimEnd_decompose (trimStart s)) as (post & Ht & Hpost & Hlast & Hsame).
  exists pre, post. unfold trim.
  split; [rewrite <- Ht; exact Hs | ].
  split; [exact Hpre | split; [exact Hpost | split; [ | exact Hlast]]].
  rewrite Hsame. destruct (trimEnd (trimStart s)); [exact I | exact Hfirst].
Qed.

Lemma trimStart_clean (s : string) : not_white (first_unit s) -> trimStart s = s.
Proof.
  destruct s as [ | c r]; cbn [first_unit not_white trimStart]; [reflexivity | ].
  intros ->. reflexivity.
Qed.

Lemma trimEnd_idempotent (s : string) : trimEnd (trimEnd s) = trimEnd s.
Proof.
  induction s as [ | c s IH]; cbn [trimEnd]; [reflexivity | ].
  destruct (trimEnd s) as [ | c' r'] eqn:Et.
  - destruct (is_white c) eqn:Ec; cbn [trimEnd]; [reflexivity | ].
    rewrite Ec. reflexivity.
  - cbn [trimEnd]. cbn [trimEnd] in IH. rewrite IH. reflexivity.
Qed.

Lemma trim_twice (s : string) : trim (trim s) = trim s.
Proof.
  destruct (trimStart_decompose s) as (_ & _ & _ & Hfirst).
  destruct (trimEnd_decompose (trimStart s)) as (_ & _ & _ & _ & Hsame).
  unfold trim at 1. rewrite trimStart_clean.
  - unfold trim. apply trimEnd_idempotent.
  - unfold trim. rewrite Hsame.
    destruct (trimEnd (trimStart s)); [exact I | exact Hfirst].
Qed.

(** X7. A text that neither starts nor ends with white space is its own
    [trim]. *)
Theorem trim_clean_text (s : string) :
  not_white (first_unit s) -> not_white (last_unit s) -> trim s = s.
Proof.
  intros Hfirst Hlast. unfold trim. rewrite (trimStart_clean s Hfirst).
  clear Hfirst. induction s as [ | c s IH]; cbn [trimEnd]; [reflexivity | ].
  cbn [last_unit] in Hlast.
  destruct (last_unit s) as [c' | ] eqn:El.
  - rewrite (IH Hlast). destruct s; [discriminate El | reflexivity].
  - destruct s as [ | c0 s0]; [ | cbn [last_unit] in El; destruct (last_unit s0); discriminate].
    cbn [trimEnd]. cbn [not_white] in Hlast. rewrite Hlast. reflexivity.
Qed.

(** X8. [split] cuts a text at every separator and nowhere else: joining
    the pieces with the separator gives the text back, and no piece
    contains the separator.  So [dt_txt.split(" ")[0]] is the part of
    [dt_txt] before its first space. *)
Theorem split_join (sep : ascii) (s : string) :
  let (p, ps) := split sep s in
  join sep p ps = s /\ Forall (fun piece => has_unit sep piece = false) (p :: ps).
Proof.
  induction s as [ | c s IH]; cbn [split].
  - split; [reflexivity | repeat constructor].
  - destruct (split sep s) as [p ps]. destruct IH as [Hj Hf].
    destruct (Ascii.eqb c sep) eqn:Ec.
    + apply Ascii.eqb_eq in Ec. subst c. cbn [join String.append].
      rewrite Hj. split; [reflexivity | constructor; [reflexivity | exact Hf]].
    + pose proof (Forall_inv Hf) as Hp. pose proof (Forall_inv_tail Hf) as Hps.
      cbn beta in Hp. split.
      * destruct ps; cbn [join String.append] in *; rewrite Hj; reflexivity.
      * constructor; [ | exact Hps]. cbn [has_unit]. rewrite Ec. exact Hp.
Qed.

(** * Further properties of the controller *)

Section ControllerMore.
Variable API_KEY : option string.

Lemma run_invariant (P : Config -> Prop) :
  P initial -> (forall c ev, P c -> P (step API_KEY c ev)) ->
  forall evs, P (run API_KEY evs).
Proof.
  intros H0 Hstep evs. induction evs as [ | ev evs IH] using rev_ind.
  - exact H0.
  - rewrite run_snoc. apply Hstep. exact IH.
Qed.

Lemma fetchWeather_cases (a : string) (u : Units) (c : Config) :
  (key_configured API_KEY = false /\
   fetchWeather API_KEY a u c =
   mkConfig (setErrorMsg missing_key_message (state c)) (requests c) (pending c)) \/
  (key_configured API_KEY = true /\ truthy a = false /\ fetchWeather API_KEY a u c = c) \/
  (key_configured API_KEY = true /\ truthy a = true /\
   fetchWeather API_KEY a u c =
   mkConfig (setErrorMsg EmptyString (setLoading true (state c)))
     (requests c ++ paired_requests (key_text API_KEY) a u)
     (pending c ++ [mkFetch a u])).
Proof.
  unfold fetchWeather. destruct (key_configured API_KEY); cbn [negb]; [ | auto].
  destruct (truthy a); cbn [negb]; auto.
Qed.

(** X9. With a configured key, a submit whose query is not blank starts
    exactly one search: it sends the two requests for the trimmed query
    under the current unit system, sets [loading], empties the error
    message and leaves what is displayed ([now], [days]) and [lastCity] as
    they are. *)
Theorem submit_starts_search (c : Config) :
  key_configured API_KEY = true ->
  whitespace_only (query (state c)) = false ->
  let c' := step API_KEY c Submit in
  let a := trim (query (state c)) in
  requests c' = requests c ++ paired_requests (key_text API_KEY) a (units (state c)) /\
  pending c' = pending c ++ [mkFetch a (units (state c))] /\
  state c' = setErrorMsg EmptyString (setLoading true (state c)).
Proof.
  intros Hk Hq. cbn [step]. unfold onSubmit. cbn zeta.
  destruct (fetchWeather_cases (trim (query (state c))) (units (state c)) c)
    as [[Hk' _] | [(_ & Ha & _) | (_ & _ & ->)]].
  - congruence.
  - exfalso. unfold truthy in Ha. apply negb_false_iff, String.eqb_eq in Ha.
    apply trim_empty_iff in Ha. congruence.
  - cbn. auto.
Qed.

Lemma fetchWeather_sent (a : string) (u : Units) (c : Config) (calls : list Fetch) :
  (truthy a = true -> trim a = a) ->
  sent_by API_KEY calls c ->
  exists calls', sent_by API_KEY calls' (fetchWeather API_KEY a u c).
Proof.
  intros Ha (Hr & Hok & Hkey & Hp & Hl).
  destruct (fetchWeather_cases a u c) as [[_ ->] | [(_ & _ & ->) | (Hk & Ht & ->)]].
  - exists calls. repeat split; auto.
  - exists calls. repeat split; auto.
  - exists (calls ++ [mkFetch a u]). split; [ | split; [ | split; [ | split]]].
    + cbn [requests]. rewrite flat_map_app, Hr. cbn [flat_map city unit].
      rewrite app_nil_r. reflexivity.
    + apply Forall_app. split; [exact Hok | ]. repeat constructor; cbn [city]; auto.
    + intros _. exact Hk.
    + cbn [pending]. apply incl_app; [apply incl_appl; exact Hp | ].
      apply incl_appr. apply incl_refl.
    + cbn [state lastCity setErrorMsg setLoading].
      destruct Hl as [Hl | (call & Hin & Hl)]; [left; exact Hl | right].
      exists call. split; [apply in_or_app; left; exact Hin | exact Hl].
Qed.

Lemma incl_remove_nth {A : Type} (k : nat) (l : list A) : incl (remove_nth k l) l.
Proof. intros x Hx. eapply In_remove_nth. exact Hx. Qed.

Lemma step_sent (c : Config) (ev : Event) :
  (exists calls, sent_by API_KEY calls c) ->
  exists calls, sent_by API_KEY calls (step API_KEY c ev).
Proof.
  intros (calls & Hs). destruct ev as [text | | | k w f]; cbn [step].
  - exists calls. exact Hs.
  - unfold onSubmit. apply (fetchWeather_sent _ _ _ calls); [ | exact Hs].
    intros _. apply trim_twice.
  - unfold onToggle. cbn zeta. cbn [lastCity setUnits units].
    assert (sent_by API_KEY calls (mkConfig (setUnits (toggled (units (state c))) (state c))
                             (requests c) (pending c))) as Hs' by exact Hs.
    destruct (truthy (lastCity (state c))) eqn:Et; [ | exists calls; exact Hs'].
    apply (fetchWeather_sent _ _ _ calls); [ | exact Hs'].
    intros _. destruct Hs as (_ & Hok & _ & _ & [Hl | (call & Hin & Hl)]).
    + rewrite Hl in Et. discriminate Et.
    + rewrite Forall_forall in Hok. rewrite <- Hl. apply (Hok call Hin).
  - destruct (nth_error (pending c) k) as [call | ] eqn:Ek; [ | exists calls; exact Hs].
    destruct Hs as (Hr & Hok & Hkey & Hp & Hl).
    exists calls. split; [exact Hr | split; [exact Hok | split; [exact Hkey | split]]].
    + cbn [pending]. eapply incl_tran; [apply incl_remove_nth | exact Hp].
    + cbn [state]. unfold resume, on_failure.
      destruct w as [w_data | ], f as [f_list | ]; try exact Hl.
      destruct (buildDaily f_list); [ | exact Hl].
      right. exists call. split; [ | reflexivity].
      apply Hp. eapply nth_error_In. exact Ek.
Qed.

(** X10. Whatever the events, what has been sent is a sequence of pairs,
    one pair per started search: a current-conditions request and a
    forecast request with the same city, unit system and key.  The city is
    never empty and carries no white space at its ends, and nothing is sent
    without a configured key.  Every call still waiting is one of these
    searches, and [lastCity] is empty or the city of one of them. *)
Theorem requests_are_pairs (evs : list Event) :
  exists calls,
    requests (run API_KEY evs) =
      flat_map (fun call => paired_requests (key_text API_KEY) (city call) (unit call))
        calls /\
    Forall (fun call => truthy (city call) = true /\ trim (city call) = city call) calls /\
    (calls <> [] -> key_configured API_KEY = true) /\
    incl (pending (run API_KEY evs)) calls /\
    (lastCity (state (run API_KEY evs)) = EmptyString \/
     exists call, In call calls /\ city call = lastCity (state (run API_KEY evs))).
Proof.
  apply (run_invariant (fun c => exists calls, sent_by API_KEY calls c)).
  - exists []. split; [reflexivity | split; [constructor | split; [congruence | split]]].
    + intros ? [].
    + left. reflexivity.
  - apply step_sent.
Qed.

Lemma fetchWeather_started (a : string) (u : Units) (c : Config) :
  started_with_key API_KEY c -> started_with_key API_KEY (fetchWeather API_KEY a u c).
Proof.
  intros [Hp Hn].
  destruct (fetchWeather_cases a u c) as [[_ ->] | [(_ & _ & ->) | (Hk & Ht & ->)]].
  - split; [exact Hp | exact Hn].
  - split; [exact Hp | exact Hn].
  - split; [ | exact Hn].
    cbn [pending]. intros call [Hin | [<- | []]]%in_app_or; auto.
Qed.

Lemma step_started (c : Config) (ev : Event) :
  started_with_key API_KEY c -> started_with_key API_KEY (step API_KEY c ev).
Proof.
  intros Hs. destruct ev as [text | | | k w f]; cbn [step].
  - exact Hs.
  - apply fetchWeather_started. exact Hs.
  - unfold onToggle. cbn zeta.
    assert (started_with_key API_KEY (mkConfig (setUnits (toggled (units (state c))) (state c))
                                (requests c) (pending c))) as Hs' by exact Hs.
    destruct (truthy _); [apply fetchWeather_started | ]; exact Hs'.
  - destruct (nth_error (pending c) k) as [call | ] eqn:Ek; [ | exact Hs].
    destruct Hs as [Hp Hn].
    pose proof (Hp call (nth_error_In _ _ Ek)) as Hcall.
    split.
    + cbn [pending]. intros call' Hin. apply Hp. eapply In_remove_nth. exact Hin.
    + cbn [state]. unfold resume, on_failure.
      destruct w as [w_data | ], f as [f_list | ]; try (cbn; congruence).
      destruct (buildDaily f_list); cbn; [intros _; exact Hcall | congruence].
Qed.

Lemma run_started (evs : list Event) : started_with_key API_KEY (run API_KEY evs).
Proof.
  apply run_invariant; [ | apply step_started].
  split; [intros ? [] | cbn; congruence].
Qed.

(** X11. Whenever the unit toggle is on the page (that is, while [now] is
    set), a click on it starts exactly one search: [lastCity] is not empty,
    the two requests for it go out under the new unit system, [loading] is
    set and the error message is emptied. *)
Theorem visible_toggle_refetches (evs : list Event) :
  let c := run API_KEY evs in
  toggle_shown (state c) = true ->
  let c' := step API_KEY c ToggleUnits in
  let u' := toggled (units (state c)) in
  truthy (lastCity (state c)) = true /\
  requests c' =
    requests c ++ paired_requests (key_text API_KEY) (lastCity (state c)) u' /\
  pending c' = pending c ++ [mkFetch (lastCity (state c)) u'] /\
  state c' = setErrorMsg EmptyString (setLoading true (setUnits u' (state c))).
Proof.
  intros c Hshown.
  destruct (run_started evs) as [_ Hn]. fold c in Hn.
  destruct Hn as [Hl Hk].
  { unfold toggle_shown in Hshown. destruct (now (state c)); [discriminate | discriminate]. }
  cbn zeta. split; [exact Hl | ].
  cbn [step]. unfold onToggle. cbn zeta. cbn [lastCity setUnits units].
  rewrite Hl. unfold fetchWeather. rewrite Hk, Hl. cbn. auto.
Qed.

(** X12. [loading] is set only while a call is waiting for its answers. *)
Theorem loading_means_waiting (evs : list Event) :
  loading (state (run API_KEY evs)) = true -> pending (run API_KEY evs) <> [].
Proof.
  apply (run_invariant (fun c => loading (state c) = true -> pending c <> [])).
  - discriminate.
  - intros c ev Hc. destruct ev as [text | | | k w f]; cbn [step].
    + exact Hc.
    + unfold onSubmit.
      destruct (fetchWeather_cases (trim (query (state c))) (units (state c)) c)
        as [[_ ->] | [(_ & _ & ->) | (_ & _ & ->)]]; try exact Hc.
      cbn [pending]. intros _ H. apply app_eq_nil in H. destruct H. discriminate.
    + unfold onToggle. cbn zeta.
      destruct (truthy _); [ | exact Hc].
      match goal with
      | |- context [fetchWeather _ ?a ?u ?c0] =>
          destruct (fetchWeather_cases a u c0)
            as [[_ ->] | [(_ & _ & ->) | (_ & _ & ->)]]
      end; try exact Hc.
      cbn [pending]. intros _ H. apply app_eq_nil in H. destruct H. discriminate.
    + destruct (nth_error (pending c) k); [ | exact Hc].
      cbn [state]. unfold resume, on_failure.
      destruct w, f; try (cbn; discriminate).
      destruct (buildDaily l); cbn; discriminate.
Qed.

(** X13. The error message is always one of three texts: the empty one, the
    missing-key message, which appears only without a configured key, and
    the not-found message, which appears only with one. *)
Theorem error_message_values (evs : list Event) :
  let msg := errorMsg (state (run API_KEY evs)) in
  msg = EmptyString \/
  (msg = missing_key_message /\ key_configured API_KEY = false) \/
  (msg = not_found_message /\ key_configured API_KEY = true).
Proof.
  cbn zeta.
  apply (run_invariant
           (fun c => started_with_key API_KEY c /\
                     (errorMsg (state c) = EmptyString \/
                      (errorMsg (state c) = missing_key_message /\
                       key_configured API_KEY = false) \/
                      (errorMsg (state c) = not_found_message /\
                       key_configured API_KEY = true)))).
  - split; [ | left; reflexivity]. split; [intros ? [] | cbn; congruence].
  - intros c ev [Hs He]. split; [apply step_started; exact Hs | ].
    destruct ev as [text | | | k w f]; cbn [step].
    + exact He.
    + unfold onSubmit.
      destruct (fetchWeather_cases (trim (query (state c))) (units (state c)) c)
        as [[Hk ->] | [(_ & _ & ->) | (_ & _ & ->)]]; cbn; auto.
    + unfold onToggle. cbn zeta.
      destruct (truthy _); [ | exact He].
      match goal with
      | |- context [fetchWeather _ ?a ?u ?c0] =>
          destruct (fetchWeather_cases a u c0)
            as [[Hk ->] | [(_ & _ & ->) | (_ & _ & ->)]]
      end; cbn; auto.
    + destruct (nth_error (pending c) k) as [call | ] eqn:Ek; [ | exact He].
      destruct Hs as [Hp _]. destruct (Hp call (nth_error_In _ _ Ek)) as [_ Hk].
      cbn [state]. unfold resume, on_failure.
      destruct w as [w_data | ], f as [f_list | ]; try (cbn; auto; fail).
      destruct (buildDaily f_list); cbn; auto.
Qed.

(** X14. Without a configured key nothing is ever fetched or displayed:
    whatever the events, no call waits, [now] stays null, [days] stays
    empty and [lastCity] stays empty, so the unit toggle never appears. *)
Theorem no_key_no_data (evs : list Event) :
  key_configured API_KEY = false ->
  let c := run API_KEY evs in
  requests c = [] /\ pending c = [] /\
  now (state c) = None /\ days (state c) = [] /\
  lastCity (state c) = EmptyString /\ toggle_shown (state c) = false.
Proof.
  intros Hk. cbn zeta.
  destruct (run_no_key API_KEY evs Hk) as (Hr & Hp & _).
  split; [exact Hr | split; [exact Hp | ]].
  assert (now (state (run API_KEY evs)) = None /\ days (state (run API_KEY evs)) = [] /\
          lastCity (state (run API_KEY evs)) = EmptyString) as (Hn & Hd & Hl).
  { clear Hr Hp.
    induction evs as [ | ev evs IH] using rev_ind; [cbn; auto | ].
    rewrite run_snoc.
    destruct (run_no_key API_KEY evs Hk) as (_ & Hp & _).
    destruct ev as [text | | | k w f]; cbn [step].
    - exact IH.
    - unfold onSubmit. rewrite fetchWeather_no_key by exact Hk. exact IH.
    - unfold onToggle. cbn zeta. destruct (truthy _); [ | exact IH].
      rewrite fetchWeather_no_key by exact Hk. exact IH.
    - rewrite Hp. destruct k; exact IH. }
  unfold toggle_shown. rewrite Hn. auto.
Qed.

Lemma nth_error_remove_nth_lt {A : Type} (i j : nat) (l : list A) :
  (i < j)%nat -> nth_error (remove_nth j l) i = nth_error l i.
Proof.
  revert i j. induction l as [ | x l IH]; intros i j Hlt.
  - destruct j; reflexivity.
  - destruct j as [ | j]; [lia | ]. destruct i as [ | i]; cbn [remove_nth nth_error].
    + reflexivity.
    + apply IH. lia.
Qed.

(** X15. Answers are applied in the order in which they arrive, whatever
    the order in which the searches were started.  When the later of two
    waiting searches is answered first and the earlier one afterwards,
    both successfully, [loading] is already unset while the earlier one
    still waits, and in the end [now], [days] and [lastCity] are those of
    the earlier search. *)
Theorem stale_answer_overwrites (c : Config) (i j : nat) (a b : Fetch)
  (wa wb : Current.t) (fa fb : list Item.t) (da db : list Day.t) :
  (i < j)%nat ->
  nth_error (pending c) i = Some a ->
  nth_error (pending c) j = Some b ->
  buildDaily fa = Normal da ->
  buildDaily fb = Normal db ->
  let c1 := step API_KEY c (Settle j (Some wb) (Some fb)) in
  let c2 := step API_KEY c1 (Settle i (Some wa) (Some fa)) in
  loading (state c1) = false /\ nth_error (pending c1) i = Some a /\
  lastCity (state c1) = city b /\
  now (state c2) = Some wa /\ days (state c2) = da /\
  lastCity (state c2) = city a.
Proof.
  intros Hlt Ha Hb Hda Hdb. cbn zeta. cbn [step].
  rewrite Hb. cbn [pending state].
  rewrite (nth_error_remove_nth_lt i j _ Hlt), Ha. cbn [state].
  unfold resume. rewrite Hda, Hdb. cbn. repeat split; reflexivity.
Qed.

Lemma step_units (c : Config) (ev : Event) :
  units (state (step API_KEY c ev)) =
  match ev with
  | ToggleUnits => toggled (units (state c))
  | _ => units (state c)
  end.
Proof.
  destruct ev as [text | | | k w f]; cbn [step].
  - reflexivity.
  - unfold onSubmit. apply (fetchWeather_frame API_KEY).
  - unfold onToggle. cbn zeta. destruct (truthy _); [ | reflexivity].
    match goal with
    | |- context [fetchWeather _ ?a ?u ?c0] =>
        pose proof (fetchWeather_frame API_KEY a u c0) as H
    end.
    cbn zeta in H. destruct H as (_ & -> & _). reflexivity.
  - destruct (nth_error (pending c) k); [ | reflexivity].
    cbn [state]. unfold resume, on_failure.
    destruct w, f; try reflexivity. destruct (buildDaily l); reflexivity.
Qed.

Lemma units_after (evs : list Event) (c : Config) :
  units (state (fold_left (step API_KEY) evs c)) =
  if Nat.even (count_toggles evs) then units (state c) else toggled (units (state c)).
Proof.
  revert c. induction evs as [ | ev evs IH]; intros c; [reflexivity | ].
  cbn [fold_left]. rewrite IH, step_units.
  destruct ev; cbn [count_toggles]; try reflexivity.
  rewrite Nat.even_succ, <- Nat.negb_even.
  destruct (Nat.even (count_toggles evs)); cbn [negb]; [reflexivity | ].
  destruct (units (state c)); reflexivity.
Qed.

(** X16. Only the toggle changes the unit system: after any events it is
    metric when the toggle has been clicked an even number of times and
    imperial otherwise, whatever searches ran or failed in between. *)
Theorem units_by_toggle_parity (evs : list Event) :
  units (state (run API_KEY evs)) =
  if Nat.even (count_toggles evs) then metric else imperial.
Proof. unfold run. rewrite units_after. reflexivity. Qed.

End ControllerMore.

(** * [countryName] *)

(** X17. Whatever the browser's region names do (give a name, give nothing,
    throw), [countryName] of a non-empty code is never empty: it is the
    code itself or the name the browser gave for it. *)
Theorem countryName_fallback (region_name : string -> completion (option string))
  (code : string) :
  truthy code = true ->
  truthy (countryName region_name code) = true /\
  (countryName region_name code = code \/
   region_name code = Normal (Some (countryName region_name code))).
Proof.
  intros Hc. unfold countryName.
  destruct (region_name code) as [[name | ] | ]; auto.
  destruct (truthy name) eqn:En; auto.
Qed.

(** * The summaries, date by date *)

(** Which dates of a feed of samples have an entry: all of them, or the five
    earliest; and the result is empty only for the empty feed. *)
Lemma buildDaily_dates_kept (feed : list Item.t) :
  Forall (fun i => is_sample i = true) feed ->
  exists out,
    buildDaily feed = Normal out /\
    (out = [] <-> feed = []) /\
    forall i, In i feed ->
      (exists d, In d out /\ Day.date d = date_of i) \/
      (List.length out = 5%nat /\
       forall d, In d out -> earlier (Day.date d) (date_of i)).
Proof.
  intros Hs.
  destruct (buildDaily_sorted_run feed Hs) as (dates & days & Hsorted & Hperm & Hsum & Hrun).
  exists (firstn 5 days). split; [exact Hrun | ].
  pose proof (summaries_dates_keys _ _ _ Hsum) as Hdates.
  assert (List.length days = List.length dates) as Hlen
    by (rewrite <- Hdates; symmetry; apply length_map).
  assert (List.length dates = List.length (distinct (map date_of feed))) as Hlen'
    by (apply Permutation_length; exact Hperm).
  split.
  - split.
    + intros Hout. destruct days as [ | d days]; [ | discriminate Hout].
      destruct feed as [ | i feed]; [reflexivity | ].
      cbn [map distinct List.length] in Hlen, Hlen'. lia.
    + intros ->. cbn [map distinct List.length] in Hlen'.
      destruct days as [ | d days]; [reflexivity | ]. cbn [List.length] in Hlen. lia.
  - intros i Hi.
    assert (In (date_of i) dates) as Hin.
    { eapply Permutation_in; [symmetry; exact Hperm | ].
      apply distinct_In. apply in_map. exact Hi. }
    rewrite <- (firstn_skipn 5 dates) in Hin, Hsorted.
    apply in_app_or in Hin. destruct Hin as [Hin | Hin]; [left | right].
    + rewrite <- Hdates, firstn_map in Hin. apply in_map_iff in Hin.
      destruct Hin as (d & Hd & Hin). exists d. auto.
    + split.
      * assert (0 < List.length (skipn 5 dates))%nat as Hpos
          by (destruct (skipn 5 dates); [destruct Hin | cbn; lia]).
        rewrite length_skipn in Hpos. rewrite length_firstn. lia.
      * intros d Hd.
        apply (StronglySorted_app_cross _ _ _ Hsorted); [ | exact Hin].
        rewrite <- Hdates, firstn_map. apply in_map. exact Hd.
Qed.

(** ** C2 *)

(** C2. For every feed of samples [buildDaily] returns, and every date of
    the feed has its entry in the result unless five earlier dates have
    taken the five places.  For every entry, the samples of the entry's
    date form the group it summarizes: its [min] is the least [temp_min] of
    the group rounded to a nearest integer, and its [max] the greatest
    [temp_max] of the group rounded to a nearest integer. *)
Theorem buildDaily_min_max (feed : list Item.t) :
  Forall (fun i => is_sample i = true) feed ->
  exists out,
    buildDaily feed = Normal out /\
    (forall i, In i feed ->
       (exists d, In d out /\ Day.date d = date_of i) \/
       (List.length out = 5%nat /\
        forall d, In d out -> earlier (Day.date d) (date_of i))) /\
    forall d, In d out ->
      let group := on_date (Day.date d) feed in
      exists lo hi zlo zhi,
        is_minimum lo (temps_min group) /\
        is_maximum hi (temps_max group) /\
        Day.min d = of_Z zlo /\ nearest_integer zlo lo /\
        Day.max d = of_Z zhi /\ nearest_integer zhi hi.
Proof.
  intros Hs.
  destruct (buildDaily_dates_kept feed Hs) as (out & Hrun & _ & Hkept).
  exists out. split; [exact Hrun | split; [exact Hkept | ]].
  intros d Hd group.
  destruct (buildDaily_entry _ _ _ Hrun Hd) as [Hne Hsum].
  fold group in Hne, Hsum.
  destruct (summarize_min_max _ _ _ Hsum) as [Hmin Hmax].
  destruct (Math_min_least (temps_min group)) as (lo & Elo & Hlo).
  { unfold temps_min. destruct group; [congruence | discriminate]. }
  destruct (Math_max_greatest (temps_max group)) as (hi & Ehi & Hhi).
  { unfold temps_max. destruct group; [congruence | discriminate]. }
  rewrite Elo in Hmin. rewrite Ehi in Hmax.
  destruct (Math_round_nearest lo) as (zlo & Rlo & Nlo & _).
  destruct (Math_round_nearest hi) as (zhi & Rhi & Nhi & _).
  exists lo, hi, zlo, zhi.
  split; [exact Hlo | split; [exact Hhi | ]].
  split; [congruence | split; [exact Nlo | split; [congruence | exact Nhi]]].
Qed.

(** ** C3 *)


(** Where the browser reads the hour that the timestamp writes, the
    distance from noon is that of the written hour. *)
Lemma noon_distance_written (i : Item.t) :
  Date_getHours (Item.dt_txt i) = of_Z (hour_of i) ->
  noon_distance i = inject_Z (Z.abs (hour_of i - 12)).
Proof.
  unfold noon_distance. intros ->. unfold of_Z.
  change (inject_Z (Z.abs (hour_of i - 12))) with (Qabs (inject_Z (hour_of i - 12))).
  f_equal. unfold Z.sub. rewrite inject_Z_plus, inject_Z_opp. reflexivity.
Qed.







(** ** C9 *)

(** C9, as the code has it.  On samples, that is, items with a timestamp
    and at least one weather condition, [buildDaily] has no error case: it
    returns a list, which is empty exactly when the feed is empty.  The
    empty feed gives the empty list. *)
Theorem buildDaily_no_error_on_samples (feed : list Item.t) :
  Forall (fun i => is_sample i = true) feed ->
  buildDaily [] = Normal [] /\
  exists out, buildDaily feed = Normal out /\ (out = [] <-> feed = []).
Proof.
  intros Hs. split; [reflexivity | ].
  destruct (buildDaily_dates_kept feed Hs) as (out & Hrun & Hempty & _).
  exists out. auto.
Qed.

(** * The unit toggle and the latest successful search *)

Section ControllerRevised.
Variable API_KEY : option string.

Lemma last_success_app (evs evs' : list Event) (c : Config) (found : option string) :
  last_success API_KEY c (evs ++ evs') found =
  last_success API_KEY (fold_left (step API_KEY) evs c) evs'
    (last_success API_KEY c evs found).
Proof.
  revert c found. induction evs as [ | ev evs IH]; intros c found;
    cbn [app fold_left last_success]; [reflexivity | apply IH].
Qed.

Lemma nth_error_snoc {A : Type} (l : list A) (x : A) :
  nth_error (l ++ [x]) (List.length l) = Some x.
Proof. induction l as [ | y l IH]; cbn; auto. Qed.

(** A query that is not blank, submitted with a key and answered by two
    answers whose forecast can be summarized, is a successful search for
    the trimmed query. *)
Lemma search_succeeds (c : Config) (q : string) (w : Current.t) (f : list Item.t)
  (summary : list Day.t) (found : option string) :
  key_configured API_KEY = true ->
  whitespace_only q = false ->
  buildDaily f = Normal summary ->
  last_success API_KEY c
    [Change q; Submit; Settle (List.length (pending c)) (Some w) (Some f)] found =
  Some (trim q).
Proof.
  intros Hk Hq Hf.
  assert (truthy (trim q) = true) as Ht.
  { unfold truthy. apply negb_true_iff, String.eqb_neq. intros E.
    apply trim_empty_iff in E. congruence. }
  cbn [last_success step completes]. unfold onSubmit.
  cbn [state query units setQuery pending].
  unfold fetchWeather. rewrite Hk, Ht. cbn [negb pending].
  rewrite nth_error_snoc, Hf. reflexivity.
Qed.

(** ** C7 *)

(** C7. A click on the unit toggle flips the unit system.  When a search
    has succeeded before, it sends exactly two requests, the
    current-conditions request and the forecast request for the city of
    the latest successful search under the new unit system, and starts
    that one call; when no search has succeeded, it sends nothing and
    starts nothing.  A search does succeed: after any events, a query that
    is not blank, submitted with a key and answered by two good answers,
    is the latest successful search, and the toggle clicked after it
    sends exactly the two requests for the trimmed query under the new
    unit system. *)
Theorem toggle_refetches_last_city (evs : list Event) :
  (let c := run API_KEY evs in
   let c' := step API_KEY c ToggleUnits in
   let u' := toggled (units (state c)) in
   units (state c') = u' /\
   match last_success API_KEY initial evs None with
   | Some a =>
       requests c' =
         requests c ++
         [ mkRequest weather_endpoint a (units_text u') (key_text API_KEY);
           mkRequest forecast_endpoint a (units_text u') (key_text API_KEY) ] /\
       pending c' = pending c ++ [mkFetch a u']
   | None => requests c' = requests c /\ pending c' = pending c
   end) /\
  (forall q w f summary,
      key_configured API_KEY = true ->
      whitespace_only q = false ->
      buildDaily f = Normal summary ->
      let searched :=
        evs ++ [Change q; Submit;
                Settle (List.length (pending (run API_KEY evs))) (Some w) (Some f)] in
      let c := run API_KEY searched in
      let c' := step API_KEY c ToggleUnits in
      let u' := toggled (units (state c)) in
      last_success API_KEY initial searched None = Some (trim q) /\
      requests c' =
        requests c ++
        [ mkRequest weather_endpoint (trim q) (units_text u') (key_text API_KEY);
          mkRequest forecast_endpoint (trim q) (units_text u') (key_text API_KEY) ] /\
      pending c' = pending c ++ [mkFetch (trim q) u']).
Proof.
  assert (forall evs0,
             let c := run API_KEY evs0 in
             let c' := step API_KEY c ToggleUnits in
             let u' := toggled (units (state c)) in
             units (state c') = u' /\
             match last_success API_KEY initial evs0 None with
             | Some a =>
                 requests c' =
                   requests c ++
                   [ mkRequest weather_endpoint a (units_text u') (key_text API_KEY);
                     mkRequest forecast_endpoint a (units_text u') (key_text API_KEY) ] /\
                 pending c' = pending c ++ [mkFetch a u']
             | None => requests c' = requests c /\ pending c' = pending c
             end) as Hgen.
  { intros evs0.
    pose proof (toggle_requests API_KEY (run API_KEY evs0) _ (run_tracks API_KEY evs0)) as H.
    cbn zeta in *. destruct H as [Hu H]. split; [exact Hu | ].
    destruct (last_success API_KEY initial evs0 None); [ | exact H].
    unfold paired_requests in H. exact H. }
  split; [apply Hgen | ].
  intros q w f summary Hk Hq Hf searched c c' u'.
  assert (last_success API_KEY initial searched None = Some (trim q)) as Hs.
  { unfold searched. rewrite last_success_app.
    apply (search_succeeds _ q w f summary); assumption. }
  split; [exact Hs | ].
  pose proof (Hgen searched) as H. cbn zeta in H. rewrite Hs in H.
  destruct H as [_ H]. exact H.
Qed.

(** ** C10 *)

Lemma last_success_found (evs : list Event) (c : Config) (a : string) :
  last_success API_KEY c evs (Some a) <> None.
Proof.
  revert c a. induction evs as [ | ev evs IH]; intros c a; cbn [last_success].
  - discriminate.
  - destruct (completes c ev); apply IH.
Qed.

Lemma step_without_success (c : Config) (ev : Event) :
  completes c ev = None ->
  now (state c) = None ->
  now (state (step API_KEY c ev)) = None /\
  lastCity (state (step API_KEY c ev)) = lastCity (state c).
Proof.
  intros Hc Hn. destruct ev as [text | | | k w f]; cbn [step].
  - auto.
  - unfold onSubmit.
    pose proof (fetchWeather_frame API_KEY (trim (query (state c))) (units (state c)) c) as H.
    cbn zeta in H. destruct H as (_ & _ & -> & _ & ->). auto.
  - unfold onToggle. cbn zeta. destruct (truthy _); [ | auto].
    match goal with
    | |- context [fetchWeather _ ?a ?u ?c0] =>
        pose proof (fetchWeather_frame API_KEY a u c0) as H
    end.
    cbn zeta in H. destruct H as (_ & _ & -> & _ & ->). auto.
  - cbn [completes] in Hc.
    destruct (nth_error (pending c) k) as [call | ]; [ | auto].
    cbn [state]. unfold resume, on_failure.
    destruct w as [w_data | ], f as [f_list | ]; try (cbn; auto; fail).
    destruct (buildDaily f_list); [discriminate Hc | cbn; auto].
Qed.

(** While no search succeeds, a cleared page stays cleared and [lastCity]
    stays as it is. *)
Lemma no_success_stays_cleared (evs : list Event) (c : Config) :
  now (state c) = None ->
  last_success API_KEY c evs None = None ->
  now (state (fold_left (step API_KEY) evs c)) = None /\
  lastCity (state (fold_left (step API_KEY) evs c)) = lastCity (state c).
Proof.
  revert c. induction evs as [ | ev evs IH]; intros c Hn Hl; cbn [fold_left]; [auto | ].
  cbn [last_success] in Hl.
  destruct (completes c ev) eqn:Ec; [destruct (last_success_found _ _ _ Hl) | ].
  destruct (step_without_success c ev Ec Hn) as [Hn' Hc'].
  destruct (IH _ Hn' Hl) as [H1 H2]. rewrite <- Hc'. auto.
Qed.

(** C10, as the code has it.  A search that fails leaves [lastCity] as it
    was: after a successful search for a city and a failed search,
    [lastCity] is still that city.  The page then shows the error and no
    data, so the unit toggle, which is drawn only while [now] is set, is
    not offered; and as long as no search succeeds, [lastCity] stays that
    city and the toggle stays away. *)
Theorem failed_fetch_keeps_last_city (evs : list Event) (k : nat) (call : Fetch)
  (w : option Current.t) (f : option (list Item.t)) :
  let c := run API_KEY evs in
  nth_error (pending c) k = Some call ->
  failed w f ->
  let c1 := step API_KEY c (Settle k w f) in
  lastCity (state c1) = lastCity (state c) /\
  (forall a, last_success API_KEY initial evs None = Some a -> lastCity (state c1) = a) /\
  now (state c1) = None /\
  error_shown (state c1) = true /\
  can_occur c1 ToggleUnits = false /\
  forall evs',
    last_success API_KEY c1 evs' None = None ->
    let c2 := fold_left (step API_KEY) evs' c1 in
    lastCity (state c2) = lastCity (state c) /\
    can_occur c2 ToggleUnits = false.
Proof.
  intros c Hk Hf c1.
  assert (state c1 = mkState (query (state c)) (units (state c)) None [] false
                       not_found_message (lastCity (state c))) as Es.
  { unfold c1. cbn [step]. rewrite Hk. cbn [state]. apply resume_failed. exact Hf. }
  assert (now (state c1) = None) as Hn by (rewrite Es; reflexivity).
  assert (lastCity (state c1) = lastCity (state c)) as Hl by (rewrite Es; reflexivity).
  split; [exact Hl | split; [ | split; [exact Hn | split; [ | split]]]].
  - intros a Ea. rewrite Hl.
    destruct (run_tracks API_KEY evs) as (Ht & _). fold c in Ht. rewrite Ea in Ht. exact Ht.
  - unfold error_shown. rewrite Es. reflexivity.
  - cbn [can_occur]. unfold toggle_shown. rewrite Hn. reflexivity.
  - intros evs' Hnone c2.
    destruct (no_success_stays_cleared evs' c1 Hn Hnone) as [Hn2 Hl2]. fold c2 in Hn2, Hl2.
    split; [congruence | ].
    cbn [can_occur]. unfold toggle_shown. rewrite Hn2. reflexivity.
Qed.

End ControllerRevised.

End Properties.

(** * The sample feed and the sample sessions

    The statements above, taken at the sample data, in a browser that
    reads the timestamps as written. *)

#[local] Existing Instance plain_host.

Example buildDaily_feed_example :
  buildDaily feed_example =
  Normal [ Day.make "2024-03-01" (of_Z 3) (of_Z 8) "10d" "Rain";
           Day.make "2024-03-02" (of_Z 10) (of_Z 14) "01d" "Clear" ]%string.
Proof. vm_compute. reflexivity. Qed.

Example session_paris_state :
  state (run sample_key session_paris) =
  mkState " Paris " metric (Some paris_now)
    [ Day.make "2024-03-01" (of_Z 3) (of_Z 8) "10d" "Rain";
      Day.make "2024-03-02" (of_Z 10) (of_Z 14) "01d" "Clear" ]
    false "" "Paris".
Proof. vm_compute. reflexivity. Qed.

Example session_paris_requests :
  requests (run sample_key session_paris) =
  [ mkRequest weather_endpoint "Paris" "metric" "0123456789abcdef";
    mkRequest forecast_endpoint "Paris" "metric" "0123456789abcdef" ].
Proof. vm_compute. reflexivity. Qed.

Example session_second_pending :
  pending (run sample_key session_second) = [mkFetch "Atlantis" metric] /\
  loading (state (run sample_key session_second)) = true /\
  now (state (run sample_key session_second)) = Some paris_now.
Proof. vm_compute. auto. Qed.

Example toggle_after_paris :
  requests (step sample_key (run sample_key session_paris) ToggleUnits) =
  [ mkRequest weather_endpoint "Paris" "metric" "0123456789abcdef";
    mkRequest forecast_endpoint "Paris" "metric" "0123456789abcdef";
    mkRequest weather_endpoint "Paris" "imperial" "0123456789abcdef";
    mkRequest forecast_endpoint "Paris" "imperial" "0123456789abcdef" ].
Proof. vm_compute. reflexivity. Qed.

Example toggle_before_any_search :
  step sample_key initial ToggleUnits =
  mkConfig (setUnits imperial initial_state) [] [].
Proof. vm_compute. reflexivity. Qed.

(** After the failure the toggle is not on the page any more: it belongs
    to the block drawn while [now] is set. *)
Example session_second_failed :
  let c := step sample_key (run sample_key session_second) (Settle 0 None None) in
  lastCity (state c) = "Paris"%string /\ toggle_shown (state c) = false /\
  error_shown (state c) = true.
Proof. vm_compute. auto. Qed.

Lemma buildDaily_at_most_five_increasing_witness :
  Forall (fun i => is_sample i = true) feed_example /\
  exists out,
    buildDaily feed_example = Normal out /\
    (List.length out <= 5)%nat /\
    NoDup (map Day.date out) /\
    StronglySorted earlier (map Day.date out) /\
    (forall d, In d out -> exists i, In i feed_example /\ date_of i = Day.date d).
Proof.
  assert (Forall (fun i => is_sample i = true) feed_example) as H
    by (repeat constructor).
  split; [exact H | exact (buildDaily_at_most_five_increasing feed_example H)].
Defined.

Lemma submit_without_key_witness :
  key_configured None = false /\
  (forall c : Config,
      let c' := step None c Submit in
      errorMsg (state c') = missing_key_message /\
      error_shown (state c') = true /\
      requests c' = requests c /\
      pending c' = pending c /\
      state c' = setErrorMsg missing_key_message (state c)) /\
  (forall evs : list Event,
      let c' := step None (run None evs) Submit in
      requests c' = [] /\ pending c' = [] /\ loading (state c') = false).
Proof.
  split; [reflexivity | exact (submit_without_key None eq_refl)].
Defined.

Lemma failed_fetch_clears_witness :
  let c := run sample_key session_second in
  nth_error (pending c) 0 = Some (mkFetch "Atlantis" metric) /\
  failed None None /\
  now (state c) = Some paris_now /\
  let s' := state (step sample_key c (Settle 0 None None)) in
  now s' = None /\ days s' = [] /\
  errorMsg s' = not_found_message /\ errorMsg s' <> EmptyString /\
  error_shown s' = true /\ loading s' = false.
Proof.
  assert (nth_error (pending (run sample_key session_second)) 0 =
          Some (mkFetch "Atlantis" metric)) as Hk by reflexivity.
  assert (failed None None) as Hf by (left; reflexivity).
  split; [exact Hk | split; [exact Hf | split; [reflexivity | ]]].
  exact (failed_fetch_clears sample_key _ 0 _ None None Hk Hf).
Defined.

Lemma submit_blank_query_witness :
  let c := run sample_key [Change "   "] in
  whitespace_only (query (state c)) = true /\
  let c' := step sample_key c Submit in
  requests c' = requests c /\ pending c' = pending c /\
  (key_configured sample_key = true -> c' = c) /\
  (key_configured sample_key = false ->
   state c' = setErrorMsg missing_key_message (state c)).
Proof.
  split; [reflexivity | ].
  exact (submit_blank_query sample_key (run sample_key [Change "   "]) eq_refl).
Defined.

(** C8 as stated fails without a key: the submit of a blank query puts the
    missing-key message into [errorMsg], which was empty. *)
Lemma submit_blank_query_sets_error :
  let c := run None [Change "   "] in
  whitespace_only (query (state c)) = true /\
  errorMsg (state c) = EmptyString /\
  errorMsg (state (step None c Submit)) = missing_key_message /\
  step None c Submit <> c.
Proof.
  split; [reflexivity | split; [reflexivity | split; [reflexivity | ]]].
  intros H. apply (f_equal (fun c => errorMsg (state c))) in H. discriminate H.
Qed.

Lemma buildDaily_keeps_earliest_witness :
  Forall (fun i => is_sample i = true) feed_example /\
  exists out,
    buildDaily feed_example = Normal out /\
    List.length out = Nat.min 5 (List.length (distinct (map date_of feed_example))) /\
    forall i, In i feed_example ->
      In (date_of i) (map Day.date out) \/
      (List.length out = 5%nat /\
       forall d, In d out -> earlier (Day.date d) (date_of i)).
Proof.
  assert (Forall (fun i => is_sample i = true) feed_example) as H
    by (repeat constructor).
  split; [exact H | exact (buildDaily_keeps_earliest feed_example H)].
Defined.

Lemma buildDaily_feed_order_witness :
  Permutation feed_example (rev feed_example) /\
  Forall (fun i => is_sample i = true) feed_example /\
  exists out out',
    buildDaily feed_example = Normal out /\
    buildDaily (rev feed_example) = Normal out' /\
    Forall2 (fun d d' => Day.date d = Day.date d' /\
                         Day.min d = Day.min d' /\ Day.max d = Day.max d')
      out out'.
Proof.
  assert (Forall (fun i => is_sample i = true) feed_example) as H
    by (repeat constructor).
  pose proof (Permutation_rev feed_example) as Hp.
  split; [exact Hp | split; [exact H | ]].
  exact (buildDaily_feed_order feed_example (rev feed_example) Hp H).
Defined.

Lemma buildDaily_min_le_max_witness :
  Forall (fun i => is_sample i = true) feed_example /\
  Forall (fun i => (Main.temp_min (Item.main i) <= Main.temp_max (Item.main i))%Q)
    feed_example /\
  exists out,
    buildDaily feed_example = Normal out /\
    forall d, In d out ->
      exists zlo zhi, Day.min d = of_Z zlo /\ Day.max d = of_Z zhi /\ zlo <= zhi.
Proof.
  assert (Forall (fun i => is_sample i = true) feed_example) as H
    by (repeat constructor).
  assert (Forall (fun i => (Main.temp_min (Item.main i) <= Main.temp_max (Item.main i))%Q)
            feed_example) as H'
    by (repeat constructor; discriminate).
  split; [exact H | split; [exact H' | ]].
  exact (buildDaily_min_le_max feed_example H H').
Defined.

Lemma trim_clean_text_witness :
  not_white (first_unit "New York") /\ not_white (last_unit "New York") /\
  trim "New York" = "New York"%string.
Proof.
  assert (not_white (first_unit "New York")) as H1 by reflexivity.
  assert (not_white (last_unit "New York")) as H2 by reflexivity.
  split; [exact H1 | split; [exact H2 | exact (trim_clean_text "New York" H1 H2)]].
Defined.

Lemma submit_starts_search_witness :
  let c := run sample_key [Change " Oslo"] in
  key_configured sample_key = true /\
  whitespace_only (query (state c)) = false /\
  let c' := step sample_key c Submit in
  let a := trim (query (state c)) in
  requests c' = requests c ++ paired_requests (key_text sample_key) a (units (state c)) /\
  pending c' = pending c ++ [mkFetch a (units (state c))] /\
  state c' = setErrorMsg EmptyString (setLoading true (state c)).
Proof.
  split; [reflexivity | split; [reflexivity | ]].
  exact (submit_starts_search sample_key (run sample_key [Change " Oslo"]) eq_refl eq_refl).
Defined.

Lemma visible_toggle_refetches_witness :
  let c := run sample_key session_paris in
  toggle_shown (state c) = true /\
  let c' := step sample_key c ToggleUnits in
  let u' := toggled (units (state c)) in
  truthy (lastCity (state c)) = true /\
  requests c' =
    requests c ++ paired_requests (key_text sample_key) (lastCity (state c)) u' /\
  pending c' = pending c ++ [mkFetch (lastCity (state c)) u'] /\
  state c' = setErrorMsg EmptyString (setLoading true (setUnits u' (state c))).
Proof.
  assert (toggle_shown (state (run sample_key session_paris)) = true) as H by reflexivity.
  split; [exact H | exact (visible_toggle_refetches sample_key session_paris H)].
Defined.

Lemma loading_means_waiting_witness :
  loading (state (run sample_key session_second)) = true /\
  pending (run sample_key session_second) <> [].
Proof.
  assert (loading (state (run sample_key session_second)) = true) as H by reflexivity.
  split; [exact H | exact (loading_means_waiting sample_key session_second H)].
Defined.

Lemma no_key_no_data_witness :
  key_configured None = false /\
  let c := run None session_paris in
  requests c = [] /\ pending c = [] /\
  now (state c) = None /\ days (state c) = [] /\
  lastCity (state c) = EmptyString /\ toggle_shown (state c) = false.
Proof.
  split; [reflexivity | exact (no_key_no_data None session_paris eq_refl)].
Defined.

Lemma stale_answer_overwrites_witness :
  let c := run sample_key [Change "Paris"; Submit; Change "Oslo"; Submit] in
  (0 < 1)%nat /\
  nth_error (pending c) 0 = Some (mkFetch "Paris" metric) /\
  nth_error (pending c) 1 = Some (mkFetch "Oslo" metric) /\
  buildDaily feed_example = Normal summary_example /\
  buildDaily [] = Normal [] /\
  let c1 := step sample_key c (Settle 1 (Some paris_now) (Some [])) in
  let c2 := step sample_key c1 (Settle 0 (Some paris_now) (Some feed_example)) in
  loading (state c1) = false /\
  nth_error (pending c1) 0 = Some (mkFetch "Paris" metric) /\
  lastCity (state c1) = "Oslo"%string /\
  now (state c2) = Some paris_now /\
  days (state c2) = summary_example /\
  lastCity (state c2) = "Paris"%string.
Proof.
  assert (0 < 1)%nat as Hlt by lia.
  split; [exact Hlt | split; [reflexivity | split; [reflexivity | ]]].
  split; [reflexivity | split; [reflexivity | ]].
  exact (stale_answer_overwrites sample_key
           (run sample_key [Change "Paris"; Submit; Change "Oslo"; Submit])
           0 1 (mkFetch "Paris" metric) (mkFetch "Oslo" metric)
           paris_now paris_now feed_example [] _ [] Hlt eq_refl eq_refl eq_refl eq_refl).
Defined.

Lemma countryName_fallback_witness :
  truthy "FR" = true /\
  truthy (countryName (fun _ => Throw) "FR") = true /\
  (countryName (fun _ => Throw) "FR" = "FR"%string \/
   (fun _ : string => @Throw (option string)) "FR"%string =
   Normal (Some (countryName (fun _ => Throw) "FR"))).
Proof.
  split; [reflexivity | exact (countryName_fallback (fun _ => Throw) "FR" eq_refl)].
Defined.

Lemma buildDaily_min_max_witness :
  Forall (fun i => is_sample i = true) feed_example /\
  exists out,
    buildDaily feed_example = Normal out /\
    (forall i, In i feed_example ->
       (exists d, In d out /\ Day.date d = date_of i) \/
       (List.length out = 5%nat /\
        forall d, In d out -> earlier (Day.date d) (date_of i))) /\
    forall d, In d out ->
      let group := on_date (Day.date d) feed_example in
      exists lo hi zlo zhi,
        is_minimum lo (temps_min group) /\
        is_maximum hi (temps_max group) /\
        Day.min d = of_Z zlo /\ nearest_integer zlo lo /\
        Day.max d = of_Z zhi /\ nearest_integer zhi hi.
Proof.
  assert (Forall (fun i => is_sample i = true) feed_example) as H
    by (repeat constructor).
  split; [exact H | exact (buildDaily_min_max feed_example H)].
Defined.


Lemma buildDaily_no_error_on_samples_witness :
  Forall (fun i => is_sample i = true) feed_example /\
  buildDaily [] = Normal [] /\
  exists out, buildDaily feed_example = Normal out /\ (out = [] <-> feed_example = []).
Proof.
  assert (Forall (fun i => is_sample i = true) feed_example) as H
    by (repeat constructor).
  split; [exact H | exact (buildDaily_no_error_on_samples feed_example H)].
Defined.

(** C9 as stated fails: an item whose [weather] array is empty makes
    [buildDaily] throw (line 30 reads [best.weather[0].icon]). *)
Lemma buildDaily_throws_on_empty_weather :
  buildDaily [Item.make "2024-03-01 12:00:00" (Main.make 1 2) []] = Throw.
Proof. reflexivity. Qed.

(** C4 as stated fails: a search answered with an empty forecast list
    leaves [now] set and [days] empty. *)
Lemma now_set_days_empty :
  let evs := [Change "Paris"; Submit; Settle 0 (Some paris_now) (Some [])] in
  feasible sample_key initial evs = true /\
  now (state (run sample_key evs)) = Some paris_now /\
  days (state (run sample_key evs)) = [].
Proof. repeat split. Qed.

(** C5 as stated fails on the text of the message. *)
Lemma missing_key_message_differs :
  errorMsg (state (step None initial Submit)) =
    "Missing OpenWeather API key in .env.local"%string /\
  errorMsg (state (step None initial Submit)) <> "missing API key configuration"%string.
Proof. split; [reflexivity | discriminate]. Qed.

Lemma toggle_refetches_last_city_witness :
  key_configured sample_key = true /\
  whitespace_only " Paris "%string = false /\
  buildDaily feed_example = Normal summary_example /\
  last_success sample_key initial session_paris None = Some "Paris"%string /\
  requests (step sample_key (run sample_key session_paris) ToggleUnits) =
    [ mkRequest weather_endpoint "Paris" "metric" "0123456789abcdef";
      mkRequest forecast_endpoint "Paris" "metric" "0123456789abcdef";
      mkRequest weather_endpoint "Paris" "imperial" "0123456789abcdef";
      mkRequest forecast_endpoint "Paris" "imperial" "0123456789abcdef" ] /\
  requests (step sample_key (run sample_key []) ToggleUnits) = [].
Proof.
  assert (key_configured sample_key = true) as Hk by reflexivity.
  assert (whitespace_only " Paris "%string = false) as Hq by reflexivity.
  assert (buildDaily feed_example = Normal summary_example) as Hf by reflexivity.
  split; [exact Hk | split; [exact Hq | split; [exact Hf | ]]].
  destruct (toggle_refetches_last_city sample_key []) as [Hnone Hsome].
  destruct (Hsome " Paris "%string paris_now feed_example summary_example Hk Hq Hf)
    as (Hs & Hr & _).
  split; [exact Hs | split; [exact Hr | ]].
  destruct Hnone as (_ & Hr0 & _). exact Hr0.
Defined.

Lemma failed_fetch_keeps_last_city_witness :
  let c := run sample_key session_second in
  let later := [Change "Oslo"; Submit; Settle 1 None None] in
  nth_error (pending c) 0 = Some (mkFetch "Atlantis" metric) /\
  failed None None /\
  last_success sample_key initial session_second None = Some "Paris"%string /\
  last_success sample_key (step sample_key c (Settle 0 None None)) later None = None /\
  let c1 := step sample_key c (Settle 0 None None) in
  lastCity (state c1) = "Paris"%string /\
  now (state c1) = None /\
  error_shown (state c1) = true /\
  can_occur c1 ToggleUnits = false /\
  let c2 := fold_left (step sample_key) later c1 in
  lastCity (state c2) = "Paris"%string /\
  can_occur c2 ToggleUnits = false.
Proof.
  assert (nth_error (pending (run sample_key session_second)) 0 =
          Some (mkFetch "Atlantis" metric)) as Hk by reflexivity.
  assert (failed None None) as Hf by (left; reflexivity).
  assert (last_success sample_key initial session_second None = Some "Paris"%string) as Hs
    by reflexivity.
  assert (last_success sample_key
            (step sample_key (run sample_key session_second) (Settle 0 None None))
            [Change "Oslo"; Submit; Settle 1 None None] None = None) as Hl
    by reflexivity.
  split; [exact Hk | split; [exact Hf | split; [exact Hs | split; [exact Hl | ]]]].
  destruct (failed_fetch_keeps_last_city sample_key session_second 0 _ None None Hk Hf)
    as (_ & Ha & Hn & He & Hc & Hlater).
  split; [exact (Ha _ Hs) | split; [exact Hn | split; [exact He | split; [exact Hc | ]]]].
  exact (Hlater _ Hl).
Defined.

(** C10 as stated fails: in the error state after the failed search the
    toggle is not on the page, so the click the claim speaks of is not an
    event of the component. *)
Lemma toggle_not_offered_after_failure :
  let evs := session_second ++ [Settle 0 None None] in
  feasible sample_key initial evs = true /\
  lastCity (state (run sample_key evs)) = "Paris"%string /\
  error_shown (state (run sample_key evs)) = true /\
  can_occur (run sample_key evs) ToggleUnits = false /\
  feasible sample_key initial (evs ++ [ToggleUnits]) = false.
Proof. repeat split. Qed.
